(** * Vault credential jobs and username/password extraction

    A shallow embedding of two Go packages of the repository:

    - package [vault]: the four recurring jobs [TokenRenewalJob],
      [TokenRevocationJob], [CredentialRenewalJob] and
      [CredentialRevocationJob] (their [Run], [Status] and [NextRunIn]
      methods and the per-item functions [renewToken], [revokeToken],
      [renewCred], [revokeCred]);
    - package [userpassword]: [Extract], [defaultUserPass], [kv2UserPass].

    The jobs talk to collaborators that are interfaces in the Go code
    (the database reader and writer, the kms, the Vault client, the
    logger, the context).  They are modelled by explicit state passing:
    every collaborator call is a function of an external world [Ext]
    that returns its answer and the next world, statements handed to
    the writer and lines handed to the logger are recorded in the job
    state, and Go's early [return] is an exit of a small monad. *)

From Stdlib Require Import ZArith List String Lia Permutation.
From stdpp Require Import gmap strings.

Set Warnings "-register-all".
Local Open Scope Z_scope.
Local Open Scope string_scope.
Local Open Scope list_scope.

(** ** Machine integers and durations *)

(** Go's [int64] (and [time.Duration]) arithmetic wraps around. *)
Definition wrap64 (z : Z) : Z := (z + 2 ^ 63) mod 2 ^ 64 - 2 ^ 63.

Definition MaxInt64 : Z := 2 ^ 63 - 1.
Definition MinInt64 : Z := - 2 ^ 63.

(** [time.Duration] is a count of nanoseconds. *)
Definition Duration := Z.
Definition Second : Duration := 1000000000.
Definition Minute : Duration := 60 * Second.

Definition defaultNextRunIn : Duration := 5 * Minute.
Definition renewalWindow : Duration := 10 * Minute.

(** [d.Seconds()]; exact on the whole minutes it is applied to. *)
Definition Seconds (d : Duration) : Z := d / Second.

(** [t.Sub(u)] on instants given in nanoseconds: the difference,
    saturated to the range of [Duration]. *)
Definition Time_Sub (t u : Z) : Duration :=
  Z.max MinInt64 (Z.min MaxInt64 (t - u)).

Definition StatusForbidden : Z := 403.
Definition StatusBadRequest : Z := 400.

(** ** Package vault *)

Module Vault.

(** *** Errors *)

(** The error codes of [internal/errors] that this file uses. *)
Inductive Code : Type := InvalidParameter | Unknown | JobAlreadyRunning.

(** Errors as the jobs build and inspect them: [errors.New], [errors.Wrap]
    (with the optional [errors.WithMsg]), Vault's [*vault.ResponseError]
    with its HTTP status code, the context's own errors, and any other
    error a collaborator may return. *)
Inductive error : Type :=
  | E_New (code : Code) (op msg : string)
  | E_Wrap (e : error) (op : string) (msg : option string)
  | E_Response (StatusCode : Z)
  | E_Context (cause : string)
  | E_Other (descr : string).

(** [errors.As(err, &respErr)]: the first [*vault.ResponseError] on the
    chain of wrapped errors, if there is one; false on [nil]. *)
Fixpoint As_ResponseError (e : error) : option Z :=
  match e with
  | E_Response c => Some c
  | E_Wrap e' _ _ => As_ResponseError e'
  | _ => None
  end.

(** [ok := errors.As(err, &respErr); ok && respErr.StatusCode == code] *)
Definition respErr_is (err : option error) (code : Z) : bool :=
  match err with
  | None => false
  | Some e =>
      match As_ResponseError e with
      | Some c => Z.eqb c code
      | None => false
      end
  end.

(** A call that returns [(value, error)]. *)
Inductive result (A : Type) : Type :=
  | Ok (a : A)
  | Err (e : error).
Arguments Ok {A} a.
Arguments Err {A} e.

Definition result_err {A} (r : result A) : option error :=
  match r with Ok _ => None | Err e => Some e end.

(** *** Statuses *)

Inductive TokenStatus : Type :=
  CurrentToken | MaintainingToken | RevokedToken | ExpiredToken.

Inductive CredentialStatus : Type :=
  ActiveCredential | RevokeCredential | RevokedCredential | ExpiredCredential.

(** Modelled from the spec: the string values of the [TokenStatus]
    constants, which the package declares next to the [Token] type; the
    spec lists the statuses as [current | maintaining | expired | revoked]. *)
Definition TokenStatus_string (s : TokenStatus) : string :=
  match s with
  | CurrentToken => "current"
  | MaintainingToken => "maintaining"
  | RevokedToken => "revoked"
  | ExpiredToken => "expired"
  end.

(** *** Tokens, credentials and the statements written for them *)

(** [*Token] and [*Credential]: the embedded stored record, kept abstract,
    and the field [expiration] that the renewal jobs assign. *)
Record Token (D : Type) : Type := mkToken {
  Token_store : D;
  Token_expiration : Duration
}.
Arguments mkToken {D}.
Arguments Token_store {D}.
Arguments Token_expiration {D}.

Record Credential (D : Type) : Type := mkCredential {
  Credential_store : D;
  Credential_expiration : Duration
}.
Arguments mkCredential {D}.
Arguments Credential_store {D}.
Arguments Credential_expiration {D}.

(** The [(query, values)] pairs handed to [writer.Exec]; each constructor
    stands for what the method of that name returns. *)
Inductive Stmt (TD CD : Type) : Type :=
  | Token_updateStatusQuery (t : Token TD) (status : TokenStatus)
  | Token_updateExpirationQuery (t : Token TD)
  | Credential_updateStatusQuery (c : Credential CD) (status : CredentialStatus)
  | Credential_updateExpirationQuery (c : Credential CD).
Arguments Token_updateStatusQuery {TD CD}.
Arguments Token_updateExpirationQuery {TD CD}.
Arguments Credential_updateStatusQuery {TD CD}.
Arguments Credential_updateExpirationQuery {TD CD}.

(** Arguments of a [SearchWhere] clause. *)
Inductive WhereArg : Type :=
  | ArgSeconds (s : Z)
  | ArgTokenStatus (s : TokenStatus)
  | ArgCredentialStatus (s : CredentialStatus).

(** The two queries of [nextRenewal]. *)
Inductive NextRunInQuery : Type :=
  tokenRenewalNextRunInQuery | credentialRenewalNextRunInQuery.

(** What [rows.Next] and [ScanRows] yield: one entry per remaining row,
    the scanned [RenewalIn] or the scan's error. *)
Definition Rows : Type := list (result Z).

(** *** The logger *)

Inductive LogVal : Type :=
  | LStr (s : string)
  | LErr (e : error).

Inductive LogEntry : Type :=
  | LogError (msg : string) (kv : list (string * LogVal))
  | LogInfo (msg : string) (kv : list (string * LogVal)).

Definition is_LogError (l : LogEntry) : bool :=
  match l with LogError _ _ => true | LogInfo _ _ => false end.

(** *** Collaborators *)

(** Everything the jobs call but do not define.  [Ext] is the state of
    the world outside the job (database, kms, Vault, clock); a call
    takes the world and returns its answer with the next world. *)
Class Collab : Type := {
  Ext : Type;
  Wrapper : Type;
  Client : Type;
  Secret : Type;
  privateStore : Type;
  privateCredential : Type;
  TokenData : Type;
  CredentialData : Type;
  (* fields of [privateStore] and [privateCredential] *)
  store_StoreId : privateStore -> string;
  store_ScopeId : privateStore -> string;
  store_TokenStatus : privateStore -> string;
  cred_PublicId : privateCredential -> string;
  cred_ScopeId : privateCredential -> string;
  cred_ExternalId : privateCredential -> string;
  cred_ExpirationTime : privateCredential -> Z;
  cred_LastRenewalTime : privateCredential -> Z;
  (* [kms.GetWrapper(ctx, scopeId, kms.KeyPurposeDatabase)] *)
  GetWrapper : string -> Ext -> result Wrapper * Ext;
  (* [s.decrypt], [s.token], [s.client]; decrypt writes into [s] *)
  store_decrypt :
    privateStore -> Wrapper -> Ext -> (option error * privateStore) * Ext;
  store_token : privateStore -> option (Token TokenData);
  store_client : privateStore -> Ext -> result Client * Ext;
  (* [c.decrypt], [c.client], [c.toCredential] *)
  cred_decrypt :
    privateCredential -> Wrapper -> Ext
    -> (option error * privateCredential) * Ext;
  cred_client : privateCredential -> Ext -> result Client * Ext;
  cred_toCredential : privateCredential -> Credential CredentialData;
  (* the Vault client *)
  vc_renewToken : Client -> Ext -> result Secret * Ext;
  vc_revokeToken : Client -> Ext -> option error * Ext;
  vc_renewLease : Client -> string -> Duration -> Ext -> result Secret * Ext;
  vc_revokeLease : Client -> string -> Ext -> option error * Ext;
  Secret_TokenTTL : Secret -> result Duration;
  Secret_LeaseDuration : Secret -> Z;
  (* [writer.Exec]: affected rows or an error *)
  writer_Exec : Stmt TokenData CredentialData -> Ext -> result Z * Ext;
  (* [reader.SearchWhere] with [db.WithLimit], at its two element types *)
  SearchWhere_store :
    string -> list WhereArg -> Z -> Ext -> result (list privateStore) * Ext;
  SearchWhere_cred :
    string -> list WhereArg -> Z -> Ext
    -> result (list privateCredential) * Ext;
  (* [reader.Query] *)
  reader_Query : NextRunInQuery -> Ext -> result Rows * Ext
}.

Section Jobs.
Context {C : Collab}.

Abbreviation stmt := (Stmt TokenData CredentialData).

(** [ctx.Err()]: whether the context is done depends on the outside
    world (a cancel or a deadline), so a context is read off [Ext]. *)
Definition Context : Type := Ext -> option error.

(** *** Job state *)

(** The fields of a job ([numTokens] is called [numCreds] in the two
    credential jobs), the outside world, and what the job has handed to
    the writer and to the logger so far (oldest first). *)
Record State : Type := mkState {
  limit : Z;
  running : bool;
  numTokens : Z;
  numProcessed : Z;
  ext : Ext;
  execs : list stmt;
  logs : list LogEntry
}.

Definition set_running (b : bool) (st : State) : State :=
  mkState (limit st) b (numTokens st) (numProcessed st)
          (ext st) (execs st) (logs st).

Definition set_counters (processed total : Z) (st : State) : State :=
  mkState (limit st) (running st) total processed
          (ext st) (execs st) (logs st).

Definition set_ext (x : Ext) (st : State) : State :=
  mkState (limit st) (running st) (numTokens st) (numProcessed st)
          x (execs st) (logs st).

Definition add_exec (q : stmt) (st : State) : State :=
  mkState (limit st) (running st) (numTokens st) (numProcessed st)
          (ext st) (execs st ++ [q]) (logs st).

Definition add_log (l : LogEntry) (st : State) : State :=
  mkState (limit st) (running st) (numTokens st) (numProcessed st)
          (ext st) (execs st) (logs st ++ [l]).

(** [scheduler.JobStatus] *)
Record JobStatus : Type := mkJobStatus { Completed : Z; Total : Z }.

Definition Status (st : State) : JobStatus :=
  {| Completed := numProcessed st; Total := numTokens st |}.

(** *** The atomic flag ([go.uber.org/atomic.Bool]) *)

Definition Bool_Load (st : State) : bool := running st.

Definition Bool_Store (b : bool) (st : State) : State := set_running b st.

(** [CAS(old, new)]: swap, and report [true], exactly when the flag holds
    [old].  The jobs are modelled one [Run] at a time: the flag a [Run]
    finds set stands for another [Run] that is still in progress. *)
Definition Bool_CAS (old new : bool) (st : State) : bool * State :=
  if Bool.eqb (running st) old then (true, set_running new st)
  else (false, st).

(** *** Function bodies with early return *)

(** A piece of a function body that returns [R]: it either leaves the
    function with a value ([inl]) or goes on with an [A] ([inr]). *)
Definition Body (R A : Type) : Type := State -> (R + A) * State.

Definition ret {R A} (a : A) : Body R A := fun st => (inr a, st).

Definition return_ {R A} (r : R) : Body R A := fun st => (inl r, st).

Definition bind {R A B} (c : Body R A) (k : A -> Body R B) : Body R B :=
  fun st =>
    match c st with
    | (inl r, st') => (inl r, st')
    | (inr a, st') => k a st'
    end.

(** The whole body: whichever way it ends, the function returns. *)
Definition body {R} (c : Body R R) (st : State) : R * State :=
  match c st with
  | (inl r, st') => (r, st')
  | (inr r, st') => (r, st')
  end.

(** A collaborator call. *)
Definition call {R A} (f : Ext -> A * Ext) : Body R A :=
  fun st => let (a, x) := f (ext st) in (inr a, set_ext x st).

(** [r.writer.Exec(ctx, query, values)] *)
Definition Exec {R} (q : stmt) : Body R (result Z) :=
  fun st =>
    let st := add_exec q st in
    let (r, x) := writer_Exec q (ext st) in (inr r, set_ext x st).

Definition logger {R} (l : LogEntry) : Body R unit :=
  fun st => (inr tt, add_log l st).

(** [ctx.Err()] *)
Definition ctx_Err {R} (ctx : Context) : Body R (option error) :=
  fun st => (inr (ctx (ext st)), st).

(** Reading a field of the job, and the two assignments to its counters. *)
Definition field {R A} (f : State -> A) : Body R A :=
  fun st => (inr (f st), st).

Definition assign_counters {R} (processed total : Z) : Body R unit :=
  fun st => (inr tt, set_counters processed total st).

(** [r.numProcessed++]; [numProcessed] never exceeds the length of the
    batch, an [int], so the increment cannot wrap. *)
Definition incr_numProcessed {R} : Body R unit :=
  fun st => (inr tt, set_counters (numProcessed st + 1) (numTokens st) st).

(** A call of a method of the job that returns normally. *)
Definition invoke {R A} (f : State -> A * State) : Body R A :=
  fun st => let (a, st') := f st in (inr a, st').

Notation "x <- c ;; k" := (bind c (fun x => k))
  (at level 100, c at next level, right associativity).

(** *** TokenRenewalJob *)

(** [renewToken] returns its error and, because [s] is a pointer that
    [decrypt] writes through, the store as the caller sees it afterwards. *)
Definition renewToken (s : privateStore)
  : State -> (option error * privateStore) * State :=
  let op := "vault.(TokenRenewalJob).renewToken" in
  body (
    w <- call (GetWrapper (store_ScopeId s)) ;;
    match w with
    | Err err =>
        return_ (Some (E_Wrap err op (Some "unable to get database wrapper")), s)
    | Ok databaseWrapper =>
    d <- call (store_decrypt s databaseWrapper) ;;
    let '(err, s) := d in
    match err with
    | Some err => return_ (Some (E_Wrap err op None), s)
    | None =>
    match store_token s with
    | None =>
        (* Store has no token to renew *)
        return_ (None, s)
    | Some token =>
    vc <- call (store_client s) ;;
    match vc with
    | Err err => return_ (Some (E_Wrap err op None), s)
    | Ok vc =>
    renewed <- call (vc_renewToken vc) ;;
    if respErr_is (result_err renewed) StatusForbidden then
      (* the token is either expired or malformed: set status "expired" *)
      numRows <- Exec (Token_updateStatusQuery token ExpiredToken) ;;
      match numRows with
      | Err err => return_ (Some (E_Wrap err op None), s)
      | Ok numRows =>
      if negb (numRows =? 1)%Z then
        return_ (Some (E_New Unknown op
                         "token expired but failed to update repo"), s)
      else
      if String.eqb (store_TokenStatus s) (TokenStatus_string CurrentToken)
      then
        _ <- logger (LogInfo "Vault credential store current token has expired"
                       [("credential store id", LStr (store_StoreId s))]) ;;
        return_ (None, s)
      else return_ (None, s)
      end
    else
    match renewed with
    | Err err =>
        return_ (Some (E_Wrap err op (Some "unable to renew vault token")), s)
    | Ok renewedToken =>
    match Secret_TokenTTL renewedToken with
    | Err err =>
        return_ (Some (E_Wrap err op
                         (Some "unable to get vault token expiration")), s)
    | Ok tokenExpires =>
    let token := mkToken (Token_store token) tokenExpires in
    numRows <- Exec (Token_updateExpirationQuery token) ;;
    match numRows with
    | Err err => return_ (Some (E_Wrap err op None), s)
    | Ok numRows =>
    if negb (numRows =? 1)%Z then
      return_ (Some (E_New Unknown op
                       "token renewed but failed to update repo"), s)
    else return_ (None, s)
    end end end end end end end).

(** The loop of [Run]: the context is checked before each store, an
    error of [renewToken] is logged, and [numProcessed] goes up either
    way. *)
Fixpoint TokenRenewalJob_range (ctx : Context) (ps : list privateStore)
  : Body (option error) unit :=
  let op := "vault.(TokenRenewalJob).Run" in
  match ps with
  | [] => ret tt
  | s :: ps' =>
      (* Verify context is not done before renewing next token *)
      err <- ctx_Err ctx ;;
      match err with
      | Some err => return_ (Some (E_Wrap err op None))
      | None =>
      r <- invoke (renewToken s) ;;
      let '(err, s) := r in
      _ <- match err with
           | Some err =>
               logger (LogError "error renewing token"
                         [("credential store id", LStr (store_StoreId s));
                          ("token status", LStr (store_TokenStatus s));
                          ("error", LErr err)])
           | None => ret tt
           end ;;
      _ <- incr_numProcessed ;;
      TokenRenewalJob_range ctx ps'
      end
  end.

Definition TokenRenewalJob_Run (ctx : Context) (st : State)
  : option error * State :=
  let op := "vault.(TokenRenewalJob).Run" in
  let '(swapped, st) := Bool_CAS (Bool_Load st) true st in
  if negb swapped then
    (Some (E_New JobAlreadyRunning op "job already running"), st)
  else
    let '(r, st) :=
      body (
        (* Verify context is not done before running *)
        err <- ctx_Err ctx ;;
        match err with
        | Some err => return_ (Some (E_Wrap err op None))
        | None =>
        lim <- field limit ;;
        ps <- call (SearchWhere_store
                      "token_renewal_time < wt_add_seconds_to_now(?)"
                      [ArgSeconds (Seconds renewalWindow)] lim) ;;
        match ps with
        | Err err => return_ (Some (E_Wrap err op None))
        | Ok ps =>
        (* Set numProcessed and numTokens for status report *)
        _ <- assign_counters 0 (Z.of_nat (length ps)) ;;
        _ <- TokenRenewalJob_range ctx ps ;;
        return_ None
        end end) st in
    (* defer r.running.Store(false) *)
    (r, Bool_Store false st).

(** *** TokenRevocationJob *)

Definition revokeToken (s : privateStore)
  : State -> (option error * privateStore) * State :=
  let op := "vault.(TokenRevocationJob).revokeToken" in
  body (
    w <- call (GetWrapper (store_ScopeId s)) ;;
    match w with
    | Err err =>
        return_ (Some (E_Wrap err op (Some "unable to get database wrapper")), s)
    | Ok databaseWrapper =>
    d <- call (store_decrypt s databaseWrapper) ;;
    let '(err, s) := d in
    match err with
    | Some err => return_ (Some (E_Wrap err op None), s)
    | None =>
    match store_token s with
    | None =>
        (* Store has no token to revoke *)
        return_ (None, s)
    | Some token =>
    vc <- call (store_client s) ;;
    match vc with
    | Err err => return_ (Some (E_Wrap err op None), s)
    | Ok vc =>
    err <- call (vc_revokeToken vc) ;;
    let err :=
      if respErr_is err StatusForbidden then
        (* the token is already expired: clobber error and set status
           "revoked" below *)
        None
      else err in
    match err with
    | Some err =>
        return_ (Some (E_Wrap err op (Some "unable to revoke vault token")), s)
    | None =>
    numRows <- Exec (Token_updateStatusQuery token RevokedToken) ;;
    match numRows with
    | Err err => return_ (Some (E_Wrap err op None), s)
    | Ok numRows =>
    if negb (numRows =? 1)%Z then
      return_ (Some (E_New Unknown op
                       "token revoked but failed to update repo"), s)
    else return_ (None, s)
    end end end end end end).

Fixpoint TokenRevocationJob_range (ctx : Context) (ps : list privateStore)
  : Body (option error) unit :=
  let op := "vault.(TokenRevocationJob).Run" in
  match ps with
  | [] => ret tt
  | s :: ps' =>
      err <- ctx_Err ctx ;;
      match err with
      | Some err => return_ (Some (E_Wrap err op None))
      | None =>
      r <- invoke (revokeToken s) ;;
      let '(err, s) := r in
      _ <- match err with
           | Some err =>
               logger (LogError "error revoking token"
                         [("credential store id", LStr (store_StoreId s));
                          ("error", LErr err)])
           | None => ret tt
           end ;;
      _ <- incr_numProcessed ;;
      TokenRevocationJob_range ctx ps'
      end
  end.

(** The where clause of the revocation job (its line breaks written
    as spaces). *)
Definition TokenRevocationJob_where : string :=
  "token_status = ? and token_hmac not in ( select token_hmac from credential_vault_credential where status = ? )".

Definition TokenRevocationJob_Run (ctx : Context) (st : State)
  : option error * State :=
  let op := "vault.(TokenRevocationJob).Run" in
  let '(swapped, st) := Bool_CAS (Bool_Load st) true st in
  if negb swapped then
    (Some (E_New JobAlreadyRunning op "job already running"), st)
  else
    let '(r, st) :=
      body (
        err <- ctx_Err ctx ;;
        match err with
        | Some err => return_ (Some (E_Wrap err op None))
        | None =>
        lim <- field limit ;;
        ps <- call (SearchWhere_store TokenRevocationJob_where
                      [ArgTokenStatus MaintainingToken;
                       ArgCredentialStatus ActiveCredential] lim) ;;
        match ps with
        | Err err => return_ (Some (E_Wrap err op None))
        | Ok ps =>
        _ <- assign_counters 0 (Z.of_nat (length ps)) ;;
        _ <- TokenRevocationJob_range ctx ps ;;
        return_ None
        end end) st in
    (r, Bool_Store false st).

(** *** CredentialRenewalJob *)

Definition renewCred (c : privateCredential)
  : State -> (option error * privateCredential) * State :=
  let op := "vault.(CredentialRenewalJob).renewCred" in
  body (
    w <- call (GetWrapper (cred_ScopeId c)) ;;
    match w with
    | Err err =>
        return_ (Some (E_Wrap err op (Some "unable to get database wrapper")), c)
    | Ok databaseWrapper =>
    d <- call (cred_decrypt c databaseWrapper) ;;
    let '(err, c) := d in
    match err with
    | Some err => return_ (Some (E_Wrap err op None), c)
    | None =>
    vc <- call (cred_client c) ;;
    match vc with
    | Err err => return_ (Some (E_Wrap err op None), c)
    | Ok vc =>
    let cred := cred_toCredential c in
    (* Subtract last renewal time from previous expiration time to get
       lease duration *)
    let leaseDuration :=
      Time_Sub (cred_ExpirationTime c) (cred_LastRenewalTime c) in
    renewed <- call (vc_renewLease vc (cred_ExternalId c) leaseDuration) ;;
    if respErr_is (result_err renewed) StatusBadRequest then
      (* the lease is either expired or the leaseId is malformed: set
         status "expired" *)
      numRows <- Exec (Credential_updateStatusQuery cred ExpiredCredential) ;;
      match numRows with
      | Err err => return_ (Some (E_Wrap err op None), c)
      | Ok numRows =>
      if negb (numRows =? 1)%Z then
        return_ (Some (E_New Unknown op
                         "credential expired but failed to update repo"), c)
      else return_ (None, c)
      end
    else
    match renewed with
    | Err err =>
        return_ (Some (E_Wrap err op (Some "unable to renew credential")), c)
    | Ok renewedCred =>
    let cred :=
      mkCredential (Credential_store cred)
                   (wrap64 (Secret_LeaseDuration renewedCred * Second)) in
    numRows <- Exec (Credential_updateExpirationQuery cred) ;;
    match numRows with
    | Err err => return_ (Some (E_Wrap err op None), c)
    | Ok numRows =>
    if negb (numRows =? 1)%Z then
      return_ (Some (E_New Unknown op
                       "credential renewed but failed to update repo"), c)
    else return_ (None, c)
    end end end end end).

Fixpoint CredentialRenewalJob_range
  (ctx : Context) (creds : list privateCredential)
  : Body (option error) unit :=
  let op := "vault.(CredentialRenewalJob).Run" in
  match creds with
  | [] => ret tt
  | c :: creds' =>
      err <- ctx_Err ctx ;;
      match err with
      | Some err => return_ (Some (E_Wrap err op None))
      | None =>
      r <- invoke (renewCred c) ;;
      let '(err, c) := r in
      _ <- match err with
           | Some err =>
               logger (LogError "error renewing credential"
                         [("credential id", LStr (cred_PublicId c));
                          ("error", LErr err)])
           | None => ret tt
           end ;;
      _ <- incr_numProcessed ;;
      CredentialRenewalJob_range ctx creds'
      end
  end.

Definition CredentialRenewalJob_Run (ctx : Context) (st : State)
  : option error * State :=
  let op := "vault.(CredentialRenewalJob).Run" in
  let '(swapped, st) := Bool_CAS (Bool_Load st) true st in
  if negb swapped then
    (Some (E_New JobAlreadyRunning op "job already running"), st)
  else
    let '(r, st) :=
      body (
        err <- ctx_Err ctx ;;
        match err with
        | Some err => return_ (Some (E_Wrap err op None))
        | None =>
        lim <- field limit ;;
        creds <- call (SearchWhere_cred
                         "renewal_time < wt_add_seconds_to_now(?) and status = ?"
                         [ArgSeconds (Seconds renewalWindow);
                          ArgCredentialStatus ActiveCredential] lim) ;;
        match creds with
        | Err err => return_ (Some (E_Wrap err op None))
        | Ok creds =>
        _ <- assign_counters 0 (Z.of_nat (length creds)) ;;
        _ <- CredentialRenewalJob_range ctx creds ;;
        return_ None
        end end) st in
    (r, Bool_Store false st).

(** *** CredentialRevocationJob *)

(** The [op] of [revokeCred] names the renewal job in the source too. *)
Definition revokeCred (c : privateCredential)
  : State -> (option error * privateCredential) * State :=
  let op := "vault.(CredentialRenewalJob).revokeCred" in
  body (
    w <- call (GetWrapper (cred_ScopeId c)) ;;
    match w with
    | Err err =>
        return_ (Some (E_Wrap err op (Some "unable to get database wrapper")), c)
    | Ok databaseWrapper =>
    d <- call (cred_decrypt c databaseWrapper) ;;
    let '(err, c) := d in
    match err with
    | Some err => return_ (Some (E_Wrap err op None), c)
    | None =>
    vc <- call (cred_client c) ;;
    match vc with
    | Err err => return_ (Some (E_Wrap err op None), c)
    | Ok vc =>
    err <- call (vc_revokeLease vc (cred_ExternalId c)) ;;
    match err with
    | Some err =>
        return_ (Some (E_Wrap err op (Some "unable to revoke credential")), c)
    | None =>
    let cred := cred_toCredential c in
    numRows <- Exec (Credential_updateStatusQuery cred RevokedCredential) ;;
    match numRows with
    | Err err => return_ (Some (E_Wrap err op None), c)
    | Ok numRows =>
    if negb (numRows =? 1)%Z then
      return_ (Some (E_New Unknown op
                       "credential revoked but failed to update repo"), c)
    else return_ (None, c)
    end end end end end).

Fixpoint CredentialRevocationJob_range
  (ctx : Context) (creds : list privateCredential)
  : Body (option error) unit :=
  let op := "vault.(CredentialRevocationJob).Run" in
  match creds with
  | [] => ret tt
  | c :: creds' =>
      err <- ctx_Err ctx ;;
      match err with
      | Some err => return_ (Some (E_Wrap err op None))
      | None =>
      r <- invoke (revokeCred c) ;;
      let '(err, c) := r in
      _ <- match err with
           | Some err =>
               logger (LogError "error revoking credential"
                         [("credential id", LStr (cred_PublicId c));
                          ("error", LErr err)])
           | None => ret tt
           end ;;
      _ <- incr_numProcessed ;;
      CredentialRevocationJob_range ctx creds'
      end
  end.

Definition CredentialRevocationJob_Run (ctx : Context) (st : State)
  : option error * State :=
  let op := "vault.(CredentialRevocationJob).Run" in
  let '(swapped, st) := Bool_CAS (Bool_Load st) true st in
  if negb swapped then
    (Some (E_New JobAlreadyRunning op "job already running"), st)
  else
    let '(r, st) :=
      body (
        err <- ctx_Err ctx ;;
        match err with
        | Some err => return_ (Some (E_Wrap err op None))
        | None =>
        lim <- field limit ;;
        creds <- call (SearchWhere_cred "status = ?"
                         [ArgCredentialStatus RevokeCredential] lim) ;;
        match creds with
        | Err err => return_ (Some (E_Wrap err op None))
        | Ok creds =>
        _ <- assign_counters 0 (Z.of_nat (length creds)) ;;
        _ <- CredentialRevocationJob_range ctx creds ;;
        return_ None
        end end) st in
    (r, Bool_Store false st).

(** *** The four jobs behind the [scheduler.Job] interface *)

Inductive JobKind : Type :=
  | TokenRenewal
  | TokenRevocation
  | CredentialRenewal
  | CredentialRevocation.

Definition Run (k : JobKind) : Context -> State -> option error * State :=
  match k with
  | TokenRenewal => TokenRenewalJob_Run
  | TokenRevocation => TokenRevocationJob_Run
  | CredentialRenewal => CredentialRenewalJob_Run
  | CredentialRevocation => CredentialRevocationJob_Run
  end.

(** *** NextRunIn *)

(** [nextRenewal]: the type switch picks the query; the loop over the
    rows returns from its first iteration whatever the row holds. *)
Definition nextRenewal (j : JobKind) (x : Ext)
  : (Duration * option error) * Ext :=
  let op := "vault.nextRenewal" in
  match
    match j with
    | TokenRenewal => Some tokenRenewalNextRunInQuery
    | CredentialRenewal => Some credentialRenewalNextRunInQuery
    | _ => None
    end
  with
  | None => ((0, Some (E_New Unknown op "unknown job")), x)
  | Some query =>
      let (rows, x) := reader_Query query x in
      match rows with
      | Err err => ((0, Some (E_Wrap err op None)), x)
      | Ok [] => ((defaultNextRunIn, None), x)
      | Ok (row :: _) =>
          match row with
          | Err err => ((0, Some (E_Wrap err op None)), x)
          | Ok RenewalIn =>
              if (RenewalIn <? 0)%Z then
                (* past the next renewal time: schedule immediately *)
                ((0, None), x)
              else ((wrap64 (RenewalIn * Second), None), x)
          end
      end
  end.

Definition NextRunIn (k : JobKind) (x : Ext)
  : (Duration * option error) * Ext :=
  match k with
  | TokenRenewal =>
      let op := "vault.(TokenRenewalJob).NextRunIn" in
      let '((next, err), x) := nextRenewal TokenRenewal x in
      match err with
      | Some err => ((defaultNextRunIn, Some (E_Wrap err op None)), x)
      | None => ((next, None), x)
      end
  | CredentialRenewal =>
      let op := "vault.(CredentialRenewalJob).NextRunIn" in
      let '((next, err), x) := nextRenewal CredentialRenewal x in
      match err with
      | Some err => ((defaultNextRunIn, Some (E_Wrap err op None)), x)
      | None => ((next, None), x)
      end
  | TokenRevocation | CredentialRevocation => ((defaultNextRunIn, None), x)
  end.

(** *** The common shape of the four [Run] methods

    The four [Run] methods differ in the selection, the per-item function
    and the log line only.  The definitions below name these parts per
    job kind and spell the run out as plain state passing; [Run_unfold]
    proves that every [Run] above is equal to it. *)

Definition Item (k : JobKind) : Type :=
  match k with
  | TokenRenewal | TokenRevocation => privateStore
  | CredentialRenewal | CredentialRevocation => privateCredential
  end.

Definition Run_op (k : JobKind) : string :=
  match k with
  | TokenRenewal => "vault.(TokenRenewalJob).Run"
  | TokenRevocation => "vault.(TokenRevocationJob).Run"
  | CredentialRenewal => "vault.(CredentialRenewalJob).Run"
  | CredentialRevocation => "vault.(CredentialRevocationJob).Run"
  end.

(** The batch selection of each job. *)
Definition select (k : JobKind)
  : Z -> Ext -> result (list (Item k)) * Ext :=
  match k with
  | TokenRenewal =>
      SearchWhere_store "token_renewal_time < wt_add_seconds_to_now(?)"
        [ArgSeconds (Seconds renewalWindow)]
  | TokenRevocation =>
      SearchWhere_store TokenRevocationJob_where
        [ArgTokenStatus MaintainingToken; ArgCredentialStatus ActiveCredential]
  | CredentialRenewal =>
      SearchWhere_cred "renewal_time < wt_add_seconds_to_now(?) and status = ?"
        [ArgSeconds (Seconds renewalWindow);
         ArgCredentialStatus ActiveCredential]
  | CredentialRevocation =>
      SearchWhere_cred "status = ?" [ArgCredentialStatus RevokeCredential]
  end.

(** The per-item function of each job. *)
Definition process (k : JobKind)
  : Item k -> State -> (option error * Item k) * State :=
  match k with
  | TokenRenewal => renewToken
  | TokenRevocation => revokeToken
  | CredentialRenewal => renewCred
  | CredentialRevocation => revokeCred
  end.

(** The line each [Run] logs for an item whose processing failed. *)
Definition item_error_log (k : JobKind) : Item k -> error -> LogEntry :=
  match k with
  | TokenRenewal => fun s err =>
      LogError "error renewing token"
        [("credential store id", LStr (store_StoreId s));
         ("token status", LStr (store_TokenStatus s));
         ("error", LErr err)]
  | TokenRevocation => fun s err =>
      LogError "error revoking token"
        [("credential store id", LStr (store_StoreId s));
         ("error", LErr err)]
  | CredentialRenewal => fun c err =>
      LogError "error renewing credential"
        [("credential id", LStr (cred_PublicId c)); ("error", LErr err)]
  | CredentialRevocation => fun c err =>
      LogError "error revoking credential"
        [("credential id", LStr (cred_PublicId c)); ("error", LErr err)]
  end.

(** One turn of the loop after its context check. *)
Definition Run_item (k : JobKind) (it : Item k) (st : State) : State :=
  let '((err, it), st) := process k it st in
  let st :=
    match err with
    | Some err => add_log (item_error_log k it err) st
    | None => st
    end in
  set_counters (numProcessed st + 1) (numTokens st) st.

(** The loop: [Some] error when the context stopped it, [None] when it
    ran to the end of the batch. *)
Fixpoint Run_range (k : JobKind) (ctx : Context) (items : list (Item k))
  (st : State) : option error * State :=
  match items with
  | [] => (None, st)
  | it :: items' =>
      match ctx (ext st) with
      | Some err => (Some (E_Wrap err (Run_op k) None), st)
      | None => Run_range k ctx items' (Run_item k it st)
      end
  end.

Definition Run_steps (k : JobKind) (ctx : Context) (st : State)
  : option error * State :=
  match ctx (ext st) with
  | Some err => (Some (E_Wrap err (Run_op k) None), set_running false st)
  | None =>
      let (found, x) := select k (limit st) (ext st) in
      match found with
      | Err err =>
          (Some (E_Wrap err (Run_op k) None),
           set_running false (set_ext x st))
      | Ok items =>
          let (r, st') :=
            Run_range k ctx items
              (set_counters 0 (Z.of_nat (length items))
                 (set_ext x (set_running true st))) in
          (r, set_running false st')
      end
  end.

(** *** Constructors, names and descriptions

    A constructor checks its four dependencies for nil in turn and then
    fixes the batch limit.  The dependencies themselves are the
    collaborators of [Collab]; what the constructor looks at is whether
    each argument is non-nil, so that is what it is given here.
    [withLimit] is the value of [opts.withLimit] after [getOpts], and
    [DefaultLimit] stands for the constant [db.DefaultLimit].  The new
    job has the zero values of [running], of the total and of
    [numProcessed]; it is returned together with the world it lives in
    and with nothing written or logged yet. *)

Definition NewTokenRenewalJob (DefaultLimit : Z) (r w kms logger : bool)
  (withLimit : Z) (x : Ext) : result State :=
  let op := "vault.NewTokenRenewalJob" in
  if negb r then Err (E_New InvalidParameter op "missing db.Reader")
  else if negb w then Err (E_New InvalidParameter op "missing db.Writer")
  else if negb kms then Err (E_New InvalidParameter op "missing kms")
  else if negb logger then Err (E_New InvalidParameter op "missing logger")
  else
    (* zero signals the boundary defaults should be used *)
    let withLimit := if (withLimit =? 0)%Z then DefaultLimit else withLimit in
    Ok (mkState withLimit false 0 0 x [] []).

Definition NewTokenRevocationJob (DefaultLimit : Z) (r w kms logger : bool)
  (withLimit : Z) (x : Ext) : result State :=
  let op := "vault.NewTokenRevocationJob" in
  if negb r then Err (E_New InvalidParameter op "missing db.Reader")
  else if negb w then Err (E_New InvalidParameter op "missing db.Writer")
  else if negb kms then Err (E_New InvalidParameter op "missing kms")
  else if negb logger then Err (E_New InvalidParameter op "missing logger")
  else
    let withLimit := if (withLimit =? 0)%Z then DefaultLimit else withLimit in
    Ok (mkState withLimit false 0 0 x [] []).

Definition NewCredentialRenewalJob (DefaultLimit : Z) (r w kms logger : bool)
  (withLimit : Z) (x : Ext) : result State :=
  let op := "vault.NewCredentialRenewalJob" in
  if negb r then Err (E_New InvalidParameter op "missing db.Reader")
  else if negb w then Err (E_New InvalidParameter op "missing db.Writer")
  else if negb kms then Err (E_New InvalidParameter op "missing kms")
  else if negb logger then Err (E_New InvalidParameter op "missing logger")
  else
    let withLimit := if (withLimit =? 0)%Z then DefaultLimit else withLimit in
    Ok (mkState withLimit false 0 0 x [] []).

Definition NewCredentialRevocationJob (DefaultLimit : Z)
  (r w kms logger : bool) (withLimit : Z) (x : Ext) : result State :=
  let op := "vault.NewCredentialRevocationJob" in
  if negb r then Err (E_New InvalidParameter op "missing db.Reader")
  else if negb w then Err (E_New InvalidParameter op "missing db.Writer")
  else if negb kms then Err (E_New InvalidParameter op "missing kms")
  else if negb logger then Err (E_New InvalidParameter op "missing logger")
  else
    let withLimit := if (withLimit =? 0)%Z then DefaultLimit else withLimit in
    Ok (mkState withLimit false 0 0 x [] []).

Definition NewJob (k : JobKind)
  : Z -> bool -> bool -> bool -> bool -> Z -> Ext -> result State :=
  match k with
  | TokenRenewal => NewTokenRenewalJob
  | TokenRevocation => NewTokenRevocationJob
  | CredentialRenewal => NewCredentialRenewalJob
  | CredentialRevocation => NewCredentialRevocationJob
  end.

Definition tokenRenewalJobName : string := "vault_token_renewal".
Definition tokenRevocationJobName : string := "vault_token_revocation".
Definition credentialRenewalJobName : string := "vault_credential_renewal".
Definition credentialRevocationJobName : string :=
  "vault_credential_revocation".

(** [Name()] *)
Definition Name (k : JobKind) : string :=
  match k with
  | TokenRenewal => tokenRenewalJobName
  | TokenRevocation => tokenRevocationJobName
  | CredentialRenewal => credentialRenewalJobName
  | CredentialRevocation => credentialRevocationJobName
  end.

(** [Description()] *)
Definition Description (k : JobKind) : string :=
  match k with
  | TokenRenewal =>
      "Periodically renews Vault credential store tokens that are in a maintaining or current state."
  | TokenRevocation =>
      "Periodically revokes Vault credential store tokens that are in a maintaining state and have no active credentials associated."
  | CredentialRenewal =>
      "Periodically renews Vault credentials that are attached to an active/pending session (in the active state)."
  | CredentialRevocation =>
      "Periodically revokes dynamic credentials that are no longer in use and have been set for revocation (in the revoke state)."
  end.

(** *** Vocabulary for the statements below *)

(** The fields of the job itself are the same in both states. *)
Definition same_job (st st' : State) : Prop :=
  limit st' = limit st /\ running st' = running st /\
  numTokens st' = numTokens st /\ numProcessed st' = numProcessed st.



(** The state in which the loop of [Run] starts, once the selection has
    answered [items] and left the world at [x]. *)
Definition loop_entry {A} (st : State) (items : list A) (x : Ext) : State :=
  set_counters 0 (Z.of_nat (length items)) (set_ext x (set_running true st)).

(** The error lines of a log. *)
Definition error_lines (l : list LogEntry) : list LogEntry :=
  filter (fun e => is_LogError e = true) l.

(** The statements a job of kind [k] hands to the writer. *)
Definition job_writes (k : JobKind) (q : stmt) : bool :=
  match k, q with
  | TokenRenewal, Token_updateStatusQuery _ ExpiredToken => true
  | TokenRenewal, Token_updateExpirationQuery _ => true
  | TokenRevocation, Token_updateStatusQuery _ RevokedToken => true
  | CredentialRenewal, Credential_updateStatusQuery _ ExpiredCredential => true
  | CredentialRenewal, Credential_updateExpirationQuery _ => true
  | CredentialRevocation, Credential_updateStatusQuery _ RevokedCredential =>
      true
  | _, _ => false
  end.

(** The scope whose database wrapper an item is decrypted with. *)
Definition item_ScopeId (k : JobKind) : Item k -> string :=
  match k with
  | TokenRenewal | TokenRevocation => store_ScopeId
  | CredentialRenewal | CredentialRevocation => cred_ScopeId
  end.

End Jobs.

End Vault.

(** ** Package userpassword *)

Module UserPassword.

(** A Go [interface{}] as the extraction helper inspects it: a string, a
    [map[string]interface{}] (which may be the nil map), or a value of
    any other dynamic type. *)
Inductive value : Type :=
  | VString (s : string)
  | VMap (m : option (gmap string value))
  | VOther.

(** [type data map[string]interface{}]; a nil [data] reads as empty. *)
Abbreviation data := (gmap string value).

Definition userPassFunc : Type := data -> string -> string -> string * string.

(** [if u, ok := sd[attr]; ok { if u, ok := u.(string); ok { x = u } }],
    starting from the zero value of the named result. *)
Definition string_at (sd : data) (attr : string) : string :=
  match sd !! attr with
  | Some (VString u) => u
  | _ => ""
  end.

Definition defaultUserPass : userPassFunc :=
  fun sd usernameAttr passwordAttr =>
    (string_at sd usernameAttr, string_at sd passwordAttr).

(** The [range] loop of [kv2UserPass] over the entries of [d], with the
    locals [data] and [metadata] ([None] is the nil map); the outer
    [None] is the early [return] of the zero results. *)
Fixpoint kv2_range (entries : list (string * value))
  (data_ metadata : option (gmap string value))
  : option (option (gmap string value) * option (gmap string value)) :=
  match entries with
  | [] => Some (data_, metadata)
  | (k, v) :: entries' =>
      if String.eqb k "data" then
        match v with
        | VMap m => kv2_range entries' m metadata
        | _ => None
        end
      else if String.eqb k "metadata" then
        match v with
        | VMap m => kv2_range entries' data_ m
        | _ => None
        end
      else None
  end.

(** The loop over an explicit order of the entries; Go leaves the order
    of a [range] over a map unspecified. *)
Definition kv2UserPass_in (entries : list (string * value))
  (usernameAttr passwordAttr : string) : string * string :=
  match kv2_range entries None None with
  | None => ("", "")
  | Some (Some data_, Some _) =>
      (string_at data_ usernameAttr, string_at data_ passwordAttr)
  | Some _ =>
      (* missing required KV-v2 field *)
      ("", "")
  end.

Definition kv2UserPass : userPassFunc :=
  fun d usernameAttr passwordAttr =>
    kv2UserPass_in (map_to_list d) usernameAttr passwordAttr.

Fixpoint Extract_range (fs : list userPassFunc) (d : data)
  (usernameAttr passwordAttr : string) : string * string :=
  match fs with
  | [] => ("", "")
  | f :: fs' =>
      let (username, password) := f d usernameAttr passwordAttr in
      if negb (String.eqb username "") && negb (String.eqb password "") then
        (* got valid username and password from secret *)
        (username, password)
      else Extract_range fs' d usernameAttr passwordAttr
  end.

Definition Extract (d : data) (usernameAttr passwordAttr : string)
  : string * string :=
  Extract_range [defaultUserPass; kv2UserPass] d usernameAttr passwordAttr.

(** A secret in the KV-v2 format: the fields "data" and "metadata",
    both maps, and nothing else. *)
Definition kv2_secret (m m' : gmap string value) : gmap string value :=
  <["data" := VMap (Some m)]> (<["metadata" := VMap (Some m')]> ∅).

End UserPassword.

(** ** Package iam: looking up and deleting users *)

Module Iam.

(** Errors of the user repository: [errors.New], [fmt.Errorf] with a
    wrapped cause ([%w]), the sentinel [db.ErrRecordNotFound], and any
    other error of the database. *)
Inductive error : Type :=
  | E_New (msg : string)
  | E_Errorf (msg : string) (cause : error)
  | ErrRecordNotFound
  | E_Db (descr : string).

(** [err == db.ErrRecordNotFound]: the sentinel itself, not an error
    that wraps it. *)
Definition is_ErrRecordNotFound (err : error) : bool :=
  match err with
  | ErrRecordNotFound => true
  | _ => false
  end.

(** A [User] with the two fields the repository reads and writes; the
    fields a lookup fills in besides are [UserRest]. *)
Record User (R : Type) : Type := mkUser {
  PublicId : string;
  Name : string;
  UserRest : R
}.
Arguments mkUser {R}.
Arguments PublicId {R}.
Arguments Name {R}.
Arguments UserRest {R}.

(** The reader and the writer of the repository over the state [Db] of
    the database.  A lookup writes what it finds into the user it is
    handed; [Delete] reports the rows it deleted.  [NoRowsAffected] is
    the constant [db.NoRowsAffected], [rest0] the zero value of the
    other fields of a user. *)
Class Repository : Type := {
  Db : Type;
  Rest : Type;
  rest0 : Rest;
  NoRowsAffected : Z;
  LookupByPublicId : User Rest -> Db -> (option error * User Rest) * Db;
  LookupByName : User Rest -> Db -> (option error * User Rest) * Db;
  Delete : User Rest -> Db -> (Z * option error) * Db
}.

Section Users.
Context {R : Repository}.

(** [allocUser()] *)
Definition allocUser : User Rest := mkUser "" "" rest0.

(** [LookupUser], given the values [getOpts] leaves in
    [opts.withPublicId] and [opts.withName]. *)
Definition LookupUser (withPublicId withName : string) (db : Db)
  : (option (User Rest) * option error) * Db :=
  if negb (String.eqb withPublicId "") then
    let user := mkUser withPublicId (Name allocUser) (UserRest allocUser) in
    let '((err, user), db) := LookupByPublicId user db in
    match err with
    | Some err => ((None, Some err), db)
    | None => ((Some user, None), db)
    end
  else if negb (String.eqb withName "") then
    let user := mkUser (PublicId allocUser) withName (UserRest allocUser) in
    let '((err, user), db) := LookupByName user db in
    match err with
    | Some err => ((None, Some err), db)
    | None => ((Some user, None), db)
    end
  else
    ((None, Some (E_New "you must loop up users by id or friendly name")), db).

Definition DeleteUser (withPublicId withName : string) (db : Db)
  : (Z * option error) * Db :=
  if negb (String.eqb withPublicId "") then
    let user := mkUser withPublicId (Name allocUser) (UserRest allocUser) in
    let '((rowsDeleted, err), db) := Delete user db in
    match err with
    | Some err =>
        ((NoRowsAffected,
          Some (E_Errorf "unable to delete user by public id" err)), db)
    | None => ((rowsDeleted, None), db)
    end
  else if negb (String.eqb withName "") then
    let user := mkUser (PublicId allocUser) withName (UserRest allocUser) in
    let '((err, user), db) := LookupByName user db in
    match err with
    | Some err =>
        if is_ErrRecordNotFound err then ((NoRowsAffected, None), db)
        else
          ((NoRowsAffected,
            Some (E_Errorf "unable to find user by name for delete" err)),
           db)
    | None =>
        if String.eqb (PublicId user) "" then
          ((NoRowsAffected,
            Some (E_New "unable to delete user with unset public id")), db)
        else
          let '((rowsDeleted, err), db) := Delete user db in
          match err with
          | Some err =>
              ((NoRowsAffected,
                Some (E_Errorf "unable to delete user by name" err)), db)
          | None => ((rowsDeleted, None), db)
          end
    end
  else ((NoRowsAffected, Some (E_New "you must delete users by id or name")),
        db).

End Users.

(** A database for running the repository: a table of users keyed by
    public id, looked up by scanning, with [db.NoRowsAffected] zero. *)
Definition find_user (p : User unit -> bool) (table : list (User unit))
  : option (User unit) :=
  List.find p table.

Definition table_repository : Repository := {|
  Db := list (User unit);
  Rest := unit;
  rest0 := tt;
  NoRowsAffected := 0;
  LookupByPublicId := fun u table =>
    match find_user (fun v => String.eqb (PublicId v) (PublicId u)) table with
    | Some v => ((None, v), table)
    | None => ((Some ErrRecordNotFound, u), table)
    end;
  LookupByName := fun u table =>
    match find_user (fun v => String.eqb (Name v) (Name u)) table with
    | Some v => ((None, v), table)
    | None => ((Some ErrRecordNotFound, u), table)
    end;
  Delete := fun u table =>
    let kept :=
      List.filter (fun v => negb (String.eqb (PublicId v) (PublicId u)))
        table in
    ((Z.of_nat (length table) - Z.of_nat (length kept), None), kept)
|}.

End Iam.

(** ** A scripted world

    A concrete instance of the collaborators, used to run the jobs on
    explicit inputs.  The outside world is a clock that ticks at every
    collaborator call together with the rows the reader selects; each
    selected item carries its own script: the HTTP status Vault answers
    with and the row count the database reports for its update. *)

Module Scenario.
Import Vault.

Record item : Type := mkItem {
  item_id : string;
  item_status : string;
  vault_code : Z;
  db_rows : Z
}.

Record world : Type := mkWorld {
  clock : nat;
  rows : list item
}.

Definition tick (w : world) : world := mkWorld (S (clock w)) (rows w).

(** Vault's answer for a scripted status code: success on 200, otherwise
    the response error, wrapped as the client wraps it. *)
Definition answer {A} (code : Z) (a : A) (op : string) : result A :=
  if (code =? 200)%Z then Ok a
  else Err (E_Wrap (E_Response code) op None).

Definition stmt_rows (q : Stmt Z Z) : Z :=
  match q with
  | Token_updateStatusQuery t _ => Token_store t
  | Token_updateExpirationQuery t => Token_store t
  | Credential_updateStatusQuery c _ => Credential_store c
  | Credential_updateExpirationQuery c => Credential_store c
  end.

#[export] Instance scripted : Collab := {|
  Ext := world;
  Wrapper := unit;
  Client := Z;
  Secret := Z;
  privateStore := item;
  privateCredential := item;
  TokenData := Z;
  CredentialData := Z;
  store_StoreId := item_id;
  store_ScopeId := fun _ => "global";
  store_TokenStatus := item_status;
  cred_PublicId := item_id;
  cred_ScopeId := fun _ => "global";
  cred_ExternalId := item_id;
  cred_ExpirationTime := fun _ => 7200 * Second;
  cred_LastRenewalTime := fun _ => 3600 * Second;
  GetWrapper := fun _ w => (Ok tt, tick w);
  store_decrypt := fun s _ w => ((None, s), tick w);
  store_token := fun s => Some (mkToken (db_rows s) 0);
  store_client := fun s w => (Ok (vault_code s), tick w);
  cred_decrypt := fun c _ w => ((None, c), tick w);
  cred_client := fun c w => (Ok (vault_code c), tick w);
  cred_toCredential := fun c => mkCredential (db_rows c) 0;
  vc_renewToken := fun code w =>
    (answer code 3600 "vault.(client).renewToken", tick w);
  vc_revokeToken := fun code w =>
    (result_err (answer code tt "vault.(client).revokeToken"), tick w);
  vc_renewLease := fun code _ _ w =>
    (answer code 3600 "vault.(client).renewLease", tick w);
  vc_revokeLease := fun code _ w =>
    (result_err (answer code tt "vault.(client).revokeLease"), tick w);
  Secret_TokenTTL := fun ttl => Ok (ttl * Second);
  Secret_LeaseDuration := fun ttl => ttl;
  writer_Exec := fun q w => (Ok (stmt_rows q), tick w);
  SearchWhere_store := fun _ _ _ w => (Ok (rows w), tick w);
  SearchWhere_cred := fun _ _ _ w => (Ok (rows w), tick w);
  reader_Query := fun _ w =>
    (Ok (map (fun i => Ok (db_rows i)) (rows w)), tick w)
|}.

(** A context that is never done, and one that is canceled once the
    clock has reached [n]. *)
Definition background : Context := fun _ => None.

Definition canceled_from (n : nat) : Context :=
  fun w =>
    if (n <=? clock w)%nat then Some (E_Context "context canceled") else None.

(** A job with limit 100 whose reader selects [items], with the given
    flag and counters. *)
Definition job (flag : bool) (total processed : Z) (items : list item)
  : State :=
  mkState 100 flag total processed (mkWorld 0 items) [] [].

(** A healthy item, one whose token or lease Vault rejects with the
    given code, and one whose update the database does not apply. *)
Definition healthy (id : string) : item := mkItem id "current" 200 1.
Definition rejected (id : string) (code : Z) : item :=
  mkItem id "current" code 1.
Definition vanished (id : string) (code : Z) : item :=
  mkItem id "current" code 0.

(** Variants of the scripted world: the kms or the reader may be down
    (every call to it fails), and the stores may hold no token. *)
Definition unless {A} (up : bool) (what : string) (r : result A) : result A :=
  if up then r else Err (E_Other what).

Definition scripted_with (kms_up reader_up has_token : bool) : Collab := {|
  Ext := world;
  Wrapper := unit;
  Client := Z;
  Secret := Z;
  privateStore := item;
  privateCredential := item;
  TokenData := Z;
  CredentialData := Z;
  store_StoreId := item_id;
  store_ScopeId := fun _ => "global";
  store_TokenStatus := item_status;
  cred_PublicId := item_id;
  cred_ScopeId := fun _ => "global";
  cred_ExternalId := item_id;
  cred_ExpirationTime := fun _ => 7200 * Second;
  cred_LastRenewalTime := fun _ => 3600 * Second;
  GetWrapper := fun _ w => (unless kms_up "kms is down" (Ok tt), tick w);
  store_decrypt := fun s _ w => ((None, s), tick w);
  store_token := fun s =>
    if has_token then Some (mkToken (db_rows s) 0) else None;
  store_client := fun s w => (Ok (vault_code s), tick w);
  cred_decrypt := fun c _ w => ((None, c), tick w);
  cred_client := fun c w => (Ok (vault_code c), tick w);
  cred_toCredential := fun c => mkCredential (db_rows c) 0;
  vc_renewToken := fun code w =>
    (answer code 3600 "vault.(client).renewToken", tick w);
  vc_revokeToken := fun code w =>
    (result_err (answer code tt "vault.(client).revokeToken"), tick w);
  vc_renewLease := fun code _ _ w =>
    (answer code 3600 "vault.(client).renewLease", tick w);
  vc_revokeLease := fun code _ w =>
    (result_err (answer code tt "vault.(client).revokeLease"), tick w);
  Secret_TokenTTL := fun ttl => Ok (ttl * Second);
  Secret_LeaseDuration := fun ttl => ttl;
  writer_Exec := fun q w => (Ok (stmt_rows q), tick w);
  SearchWhere_store := fun _ _ _ w =>
    (unless reader_up "reader is down" (Ok (rows w)), tick w);
  SearchWhere_cred := fun _ _ _ w =>
    (unless reader_up "reader is down" (Ok (rows w)), tick w);
  reader_Query := fun _ w =>
    (unless reader_up "reader is down"
       (Ok (map (fun i => Ok (db_rows i)) (rows w))), tick w)
|}.

(** The state of a job in such a world. *)
Definition job_in (E : Collab) (x : @Ext E) (flag : bool)
  (total processed : Z) : @State E :=
  mkState 100 flag total processed x [] [].

End Scenario.

(** * Properties of the jobs *)

Import Vault.

(** Take the next case distinction of a function body apart. *)
Ltac unfold_body :=
  unfold body, bind, call, Exec, logger, ctx_Err, field, assign_counters,
    incr_numProcessed, invoke, return_, ret in *.

Ltac split_match :=
  match goal with
  | |- context [match ?x with _ => _ end] =>
      lazymatch x with
      | context [match _ with _ => _ end] => fail
      | _ => destruct x eqn:?
      end
  | |- context [if ?x then _ else _] =>
      lazymatch x with
      | context [match _ with _ => _ end] => fail
      | _ => destruct x eqn:?
      end
  end.

Ltac run_body := unfold_body; cbn; repeat (split_match; cbn).

Section JobFacts.
Context {C : Collab}.

(** ** The flag *)

(** [CAS] is handed the value just loaded, so it always swaps. *)
Lemma Bool_CAS_Load (new : bool) (st : State) :
  Bool_CAS (Bool_Load st) new st = (true, set_running new st).
Proof.
  unfold Bool_CAS, Bool_Load. now rewrite Bool.eqb_reflx.
Qed.

(** ** The per-item functions leave the job's own fields alone *)

Lemma process_same_job (k : JobKind) (it : Item k) (st : State) :
  same_job st (snd (process k it st)).
Proof.
  unfold same_job.
  destruct k; cbn [process Item] in *;
    [unfold renewToken | unfold revokeToken
    | unfold renewCred | unfold revokeCred];
    run_body; auto.
Qed.

(** ** Every [Run] has the common shape *)

Lemma TokenRenewalJob_range_unfold ctx ps st :
  TokenRenewalJob_range ctx ps st =
  match Run_range TokenRenewal ctx ps st with
  | (Some e, st') => (inl (Some e), st')
  | (None, st') => (inr tt, st')
  end.
Proof.
  revert st. induction ps as [|s ps IH]; intros st; [reflexivity|].
  cbn [TokenRenewalJob_range Run_range]. unfold_body.
  destruct (ctx (ext st)); [reflexivity|].
  unfold Run_item. cbn [process item_error_log].
  destruct (renewToken s st) as [[[e|] s'] st1]; cbn; apply IH.
Qed.

Lemma TokenRevocationJob_range_unfold ctx ps st :
  TokenRevocationJob_range ctx ps st =
  match Run_range TokenRevocation ctx ps st with
  | (Some e, st') => (inl (Some e), st')
  | (None, st') => (inr tt, st')
  end.
Proof.
  revert st. induction ps as [|s ps IH]; intros st; [reflexivity|].
  cbn [TokenRevocationJob_range Run_range]. unfold_body.
  destruct (ctx (ext st)); [reflexivity|].
  unfold Run_item. cbn [process item_error_log].
  destruct (revokeToken s st) as [[[e|] s'] st1]; cbn; apply IH.
Qed.

Lemma CredentialRenewalJob_range_unfold ctx creds st :
  CredentialRenewalJob_range ctx creds st =
  match Run_range CredentialRenewal ctx creds st with
  | (Some e, st') => (inl (Some e), st')
  | (None, st') => (inr tt, st')
  end.
Proof.
  revert st. induction creds as [|c creds IH]; intros st; [reflexivity|].
  cbn [CredentialRenewalJob_range Run_range]. unfold_body.
  destruct (ctx (ext st)); [reflexivity|].
  unfold Run_item. cbn [process item_error_log].
  destruct (renewCred c st) as [[[e|] c'] st1]; cbn; apply IH.
Qed.

Lemma CredentialRevocationJob_range_unfold ctx creds st :
  CredentialRevocationJob_range ctx creds st =
  match Run_range CredentialRevocation ctx creds st with
  | (Some e, st') => (inl (Some e), st')
  | (None, st') => (inr tt, st')
  end.
Proof.
  revert st. induction creds as [|c creds IH]; intros st; [reflexivity|].
  cbn [CredentialRevocationJob_range Run_range]. unfold_body.
  destruct (ctx (ext st)); [reflexivity|].
  unfold Run_item. cbn [process item_error_log].
  destruct (revokeCred c st) as [[[e|] c'] st1]; cbn; apply IH.
Qed.

Lemma Run_unfold (k : JobKind) (ctx : Context) (st : State) :
  Run k ctx st = Run_steps k ctx st.
Proof.
  destruct k; cbn [Run];
    [unfold TokenRenewalJob_Run | unfold TokenRevocationJob_Run
    | unfold CredentialRenewalJob_Run | unfold CredentialRevocationJob_Run];
    rewrite Bool_CAS_Load; cbn [negb]; unfold Run_steps;
    unfold body at 1, bind at 1, ctx_Err at 1; cbn [ext set_running];
    (destruct (ctx (ext st)) as [c|]; [reflexivity|]);
    unfold bind at 1, field at 1; unfold bind at 1, call at 1;
    cbn [ext limit set_running select];
    match goal with
    | |- context [SearchWhere_store ?w ?a ?l ?x] =>
        destruct (SearchWhere_store w a l x) as [[items|e] x1]
    | |- context [SearchWhere_cred ?w ?a ?l ?x] =>
        destruct (SearchWhere_cred w a l x) as [[items|e] x1]
    end; try reflexivity;
    unfold bind at 1, assign_counters at 1; unfold bind at 1;
    [rewrite TokenRenewalJob_range_unfold
    | rewrite TokenRevocationJob_range_unfold
    | rewrite CredentialRenewalJob_range_unfold
    | rewrite CredentialRevocationJob_range_unfold];
    unfold Bool_Store, set_counters, set_ext, set_running;
    cbn [ext limit numTokens numProcessed execs logs running Item];
    match goal with
    | |- context [Run_range ?k ?c ?i ?s] =>
        destruct (Run_range k c i s) as [[e|] st1]
    end; reflexivity.
Qed.

(** ** One turn of the loop, and the loop *)

Lemma Run_item_same_job (k : JobKind) (it : Item k) (st : State) :
  limit (Run_item k it st) = limit st /\
  running (Run_item k it st) = running st /\
  numTokens (Run_item k it st) = numTokens st /\
  numProcessed (Run_item k it st) = numProcessed st + 1.
Proof.
  unfold Run_item.
  pose proof (process_same_job k it st) as H.
  destruct (process k it st) as [[[e|] it'] st1]; cbn in *;
    unfold same_job in H; intuition congruence.
Qed.

(** A failed item is logged with its error; a successful one adds no
    line of its own. *)
Lemma Run_item_logs (k : JobKind) (it : Item k) (st : State) :
  logs (Run_item k it st) =
  logs (snd (process k it st)) ++
  match fst (process k it st) with
  | (Some err, it') => [item_error_log k it' err]
  | (None, _) => []
  end.
Proof.
  unfold Run_item.
  destruct (process k it st) as [[[e|] it'] st1]; cbn;
    [reflexivity | now rewrite app_nil_r].
Qed.

Lemma Run_item_world (k : JobKind) (it : Item k) (st : State) :
  ext (Run_item k it st) = ext (snd (process k it st)) /\
  execs (Run_item k it st) = execs (snd (process k it st)).
Proof.
  unfold Run_item.
  destruct (process k it st) as [[[e|] it'] st1]; cbn; auto.
Qed.

Lemma Run_range_app (k : JobKind) (ctx : Context)
  (items1 items2 : list (Item k)) (st : State) :
  Run_range k ctx (items1 ++ items2) st =
  match Run_range k ctx items1 st with
  | (None, st1) => Run_range k ctx items2 st1
  | (Some e, st1) => (Some e, st1)
  end.
Proof.
  revert st. induction items1 as [|it items1 IH]; intros st; cbn;
    [reflexivity|].
  destruct (ctx (ext st)); [reflexivity | apply IH].
Qed.

(** The loop keeps [limit], the flag and the total, and when it runs to
    the end it has counted every item. *)
Lemma Run_range_job (k : JobKind) (ctx : Context) (items : list (Item k))
  (st : State) :
  limit (snd (Run_range k ctx items st)) = limit st /\
  running (snd (Run_range k ctx items st)) = running st /\
  numTokens (snd (Run_range k ctx items st)) = numTokens st /\
  (fst (Run_range k ctx items st) = None ->
   numProcessed (snd (Run_range k ctx items st)) =
   numProcessed st + Z.of_nat (length items)).
Proof.
  revert st. induction items as [|it items IH]; intros st.
  - cbn. repeat split; lia.
  - cbn [Run_range]. destruct (ctx (ext st)) as [c|].
    + cbn. repeat split; discriminate.
    + destruct (IH (Run_item k it st)) as (Hl & Hr & Ht & Hp).
      destruct (Run_item_same_job k it st) as (Hl' & Hr' & Ht' & Hp').
      repeat split; try congruence.
      intros Hn. rewrite Hp by exact Hn. rewrite Hp'.
      rewrite length_cons, Nat2Z.inj_succ. lia.
Qed.

(** The loop stops with an error only at a context that is done. *)
Lemma Run_range_error (k : JobKind) (ctx : Context) (items : list (Item k))
  (st : State) (e : error) :
  fst (Run_range k ctx items st) = Some e ->
  exists x c, ctx x = Some c /\ e = E_Wrap c (Run_op k) None.
Proof.
  revert st. induction items as [|it items IH]; intros st; cbn.
  - discriminate.
  - destruct (ctx (ext st)) as [c|] eqn:Hc.
    + cbn. intros [= <-]. eauto.
    + apply IH.
Qed.


(** ** Facts about a whole [Run] *)

(** The flag once [Run] has returned. *)
Lemma Run_clears_flag (k : JobKind) (ctx : Context) (st : State) :
  running (snd (Run k ctx st)) = false.
Proof.
  rewrite Run_unfold. unfold Run_steps.
  destruct (ctx (ext st)); [reflexivity|].
  destruct (select k (limit st) (ext st)) as [[items|e] x1];
    [|reflexivity].
  destruct (Run_range k ctx items _); reflexivity.
Qed.

(** The flag at entry has no influence on what [Run] does. *)
Lemma Run_ignores_flag (k : JobKind) (ctx : Context) (st : State) (b : bool) :
  Run k ctx (set_running b st) = Run k ctx st.
Proof.
  rewrite !Run_unfold. unfold Run_steps. cbn [ext limit set_running].
  destruct (ctx (ext st)); [reflexivity|].
  destruct (select k (limit st) (ext st)) as [[items|e] x1]; reflexivity.
Qed.


(** A sequential [Run] never returns the already-running error. *)
Lemma Run_never_already_running (k : JobKind) (ctx : Context) (st : State)
  (op msg : string) :
  fst (Run k ctx st) <> Some (E_New JobAlreadyRunning op msg).
Proof.
  rewrite Run_unfold. unfold Run_steps.
  destruct (ctx (ext st)); [discriminate|].
  destruct (select k (limit st) (ext st)) as [[items|e] x1];
    [|discriminate].
  pose proof (Run_range_error k ctx items
                (set_counters 0 (Z.of_nat (length items))
                   (set_ext x1 (set_running true st)))) as He.
  destruct (Run_range k ctx items _) as [[e|] st']; cbn in *;
    [|discriminate].
  intros [= ->]. destruct (He _ eq_refl) as (x & c & _ & Hc). discriminate.
Qed.

(** ** Cancellation *)

(** C9.  If the context is already done when [Run] is invoked, [Run]
    returns the context's error wrapped with its own operation, and the
    state it leaves is the state it found with the flag cleared: no
    selection was issued (the world is untouched), nothing was written or
    logged, and the counters keep their prior values.  The check before
    each item does the same to the rest of the batch: if the loop has got
    through [items1] and the context is done before the next item, [Run]
    returns the wrapped error from the state reached after [items1], in
    which exactly [items1] are counted as processed. *)
Theorem Run_context_done (k : JobKind) (ctx : Context) (st : State)
  (c : error) :
  (ctx (ext st) = Some c ->
   Run k ctx st = (Some (E_Wrap c (Run_op k) None), set_running false st)) /\
  (forall (items1 : list (Item k)) (it : Item k) (items2 : list (Item k))
          (x1 : Ext) (st1 : State),
     ctx (ext st) = None ->
     select k (limit st) (ext st) = (Ok (items1 ++ it :: items2), x1) ->
     Run_range k ctx items1 (loop_entry st (items1 ++ it :: items2) x1)
     = (None, st1) ->
     ctx (ext st1) = Some c ->
     Run k ctx st
     = (Some (E_Wrap c (Run_op k) None), set_running false st1) /\
     numProcessed st1 = Z.of_nat (length items1)).
Proof.
  split.
  - intros Hc. rewrite Run_unfold. unfold Run_steps. now rewrite Hc.
  - intros items1 it items2 x1 st1 Hc Hs Hr Hc1.
    rewrite Run_unfold. unfold Run_steps. rewrite Hc, Hs.
    fold (loop_entry st (items1 ++ it :: items2) x1).
    rewrite Run_range_app, Hr. cbn [Run_range]. rewrite Hc1.
    split; [reflexivity|].
    pose proof (Run_range_job k ctx items1
                  (loop_entry st (items1 ++ it :: items2) x1))
      as (_ & _ & _ & Hp).
    rewrite Hr in Hp. cbn in Hp. now rewrite Hp.
Qed.

(** ** Which errors [Run] returns *)


(** ** The counters *)

(** C8, as the code has it.  The counters are assigned once per [Run],
    after the context check and the selection have succeeded and before
    any item is processed, and the assignment is
    [numProcessed, numTokens = 0, len(batch)].  Every turn of the loop
    adds one to [numProcessed] whatever the item's outcome and leaves the
    total, so when the loop has got through a prefix [items1] of the
    batch [Status] reports [(len(items1), len(batch))], and the rest of
    the [Run] goes on from that state; with nothing left, [Run] returns
    with that tally. *)
Theorem Run_counters_follow_batch (k : JobKind) (ctx : Context) (st : State)
  (items1 items2 : list (Item k)) (x1 : Ext) (st1 : State) :
  ctx (ext st) = None ->
  select k (limit st) (ext st) = (Ok (items1 ++ items2), x1) ->
  let st0 := loop_entry st (items1 ++ items2) x1 in
  Status st0 =
    {| Completed := 0; Total := Z.of_nat (length (items1 ++ items2)) |} /\
  (forall (it : Item k) (st' : State),
     Status (Run_item k it st') =
       {| Completed := numProcessed st' + 1; Total := numTokens st' |}) /\
  (Run_range k ctx items1 st0 = (None, st1) ->
   Status st1 =
     {| Completed := Z.of_nat (length items1);
        Total := Z.of_nat (length (items1 ++ items2)) |} /\
   Run k ctx st =
     (let (r, st') := Run_range k ctx items2 st1 in
      (r, set_running false st')) /\
   (items2 = [] -> Status (snd (Run k ctx st)) = Status st1)).
Proof.
  intros Hc Hs st0. split; [reflexivity|]. split.
  - intros it st'. unfold Status.
    destruct (Run_item_same_job k it st') as (_ & _ & Ht & Hp).
    now rewrite Ht, Hp.
  - intros Hr.
    pose proof (Run_range_job k ctx items1 st0) as (_ & _ & Ht & Hp).
    rewrite Hr in Ht, Hp. cbn in Ht, Hp. specialize (Hp eq_refl).
    assert (HRun : Run k ctx st =
                   (let (r, st') := Run_range k ctx items2 st1 in
                    (r, set_running false st'))).
    { rewrite Run_unfold. unfold Run_steps. rewrite Hc, Hs.
      fold (loop_entry st (items1 ++ items2) x1). fold st0.
      now rewrite Run_range_app, Hr. }
    repeat split.
    + unfold Status. rewrite Ht, Hp. cbn. f_equal; lia.
    + exact HRun.
    + intros ->. rewrite HRun. reflexivity.
Qed.

(** ** Updates that do not hit exactly one row *)








(** ** Responses of Vault that end an item's life *)

(** The error lines of [Run]'s log after a turn in which the per-item
    function returned nil and logged no error itself. *)
Lemma Run_item_no_error_line (k : JobKind) (it it' : Item k) (st : State) :
  fst (process k it st) = (None, it') ->
  error_lines (logs (snd (process k it st))) = error_lines (logs st) ->
  error_lines (logs (Run_item k it st)) = error_lines (logs st).
Proof.
  intros Hp Hl. rewrite Run_item_logs, Hp, app_nil_r. exact Hl.
Qed.

(** C3, as the code has it.  When the renew-self call of [renewToken]
    fails with a response error of status 403, [renewToken] hands the
    writer exactly one statement, the update of the token's status to
    [expired], and what it returns is decided by the answer to that
    statement alone: nil when one row was updated (and then the turn of
    the loop adds no error line to the log), the wrapped error when the
    writer failed, an error of code [Unknown] when another row count came
    back.  The 403 itself is never returned. *)
Theorem renewToken_forbidden (s : privateStore) (st : State)
  (w : Wrapper) (x1 : Ext) (s1 : privateStore) (x2 : Ext)
  (token : Token TokenData) (vc : Client) (x3 : Ext)
  (r : result Secret) (x4 : Ext) :
  GetWrapper (store_ScopeId s) (ext st) = (Ok w, x1) ->
  store_decrypt s w x1 = ((None, s1), x2) ->
  store_token s1 = Some token ->
  store_client s1 x2 = (Ok vc, x3) ->
  vc_renewToken vc x3 = (r, x4) ->
  respErr_is (result_err r) StatusForbidden = true ->
  let q := Token_updateStatusQuery token ExpiredToken in
  let op := "vault.(TokenRenewalJob).renewToken" in
  execs (snd (renewToken s st)) = execs st ++ [q] /\
  fst (renewToken s st)
  = (match fst (writer_Exec q x4) with
     | Err err => Some (E_Wrap err op None)
     | Ok numRows =>
         if (numRows =? 1)%Z then None
         else Some (E_New Unknown op
                      "token expired but failed to update repo")
     end, s1) /\
  (fst (writer_Exec q x4) = Ok 1%Z ->
   error_lines (logs (Run_item TokenRenewal s st)) = error_lines (logs st)).
Proof.
  intros H1 H2 H3 H4 H5 H6 q op.
  assert (Hgen :
    execs (snd (renewToken s st)) = execs st ++ [q] /\
    fst (renewToken s st)
    = (match fst (writer_Exec q x4) with
       | Err err => Some (E_Wrap err op None)
       | Ok numRows =>
           if (numRows =? 1)%Z then None
           else Some (E_New Unknown op
                        "token expired but failed to update repo")
       end, s1) /\
    (fst (writer_Exec q x4) = Ok 1%Z ->
     error_lines (logs (snd (renewToken s st))) = error_lines (logs st))).
  { subst q op. unfold renewToken. unfold_body.
    rewrite H1; cbn. rewrite H2; cbn. rewrite H3; cbn.
    rewrite H4; cbn. rewrite H5; cbn. rewrite H6; cbn.
    destruct (writer_Exec _ x4) as [[n|e] x5]; cbn;
      [|repeat split; discriminate].
    destruct (n =? 1)%Z eqn:Hn; cbn; [|repeat split;
      intros [= ->]; discriminate].
    destruct (String.eqb _ _); cbn; repeat split.
    unfold error_lines. rewrite filter_app. cbn. now rewrite app_nil_r. }
  destruct Hgen as (He & Hr & Hl).
  repeat split; [exact He | exact Hr |].
  intros Hw. apply (Run_item_no_error_line TokenRenewal s s1).
  - change (fst (renewToken s st) = (None, s1)). rewrite Hr, Hw.
    reflexivity.
  - change (error_lines (logs (snd (renewToken s st)))
            = error_lines (logs st)). now apply Hl.
Qed.

(** C5, as the code has it.  When the revoke-self call of [revokeToken]
    fails with a response error of status 403, the error is dropped and
    [revokeToken] goes on exactly as after a call that succeeded: in
    both cases it hands the writer exactly one statement, the update of
    the token's status to [revoked], and returns nil when one row was
    updated (the turn of the loop then adds no error line), the wrapped
    error when the writer failed, and an error of code [Unknown] for
    another row count. *)
Theorem revokeToken_forbidden (s : privateStore) (st : State)
  (w : Wrapper) (x1 : Ext) (s1 : privateStore) (x2 : Ext)
  (token : Token TokenData) (vc : Client) (x3 : Ext)
  (err : option error) (x4 : Ext) :
  GetWrapper (store_ScopeId s) (ext st) = (Ok w, x1) ->
  store_decrypt s w x1 = ((None, s1), x2) ->
  store_token s1 = Some token ->
  store_client s1 x2 = (Ok vc, x3) ->
  vc_revokeToken vc x3 = (err, x4) ->
  respErr_is err StatusForbidden = true \/ err = None ->
  let q := Token_updateStatusQuery token RevokedToken in
  let op := "vault.(TokenRevocationJob).revokeToken" in
  execs (snd (revokeToken s st)) = execs st ++ [q] /\
  fst (revokeToken s st)
  = (match fst (writer_Exec q x4) with
     | Err err => Some (E_Wrap err op None)
     | Ok numRows =>
         if (numRows =? 1)%Z then None
         else Some (E_New Unknown op
                      "token revoked but failed to update repo")
     end, s1) /\
  (fst (writer_Exec q x4) = Ok 1%Z ->
   error_lines (logs (Run_item TokenRevocation s st))
   = error_lines (logs st)).
Proof.
  intros H1 H2 H3 H4 H5 H6 q op.
  assert (Hgen :
    execs (snd (revokeToken s st)) = execs st ++ [q] /\
    fst (revokeToken s st)
    = (match fst (writer_Exec q x4) with
       | Err err => Some (E_Wrap err op None)
       | Ok numRows =>
           if (numRows =? 1)%Z then None
           else Some (E_New Unknown op
                        "token revoked but failed to update repo")
       end, s1) /\
    logs (snd (revokeToken s st)) = logs st).
  { subst q op. unfold revokeToken. unfold_body.
    rewrite H1; cbn. rewrite H2; cbn. rewrite H3; cbn.
    rewrite H4; cbn. rewrite H5; cbn.
    destruct H6 as [H6 | ->]; [rewrite H6|]; cbn;
      (destruct (writer_Exec _ x4) as [[n|e] x5]; cbn; [|repeat split];
       destruct (n =? 1)%Z eqn:Hn; cbn; repeat split). }
  destruct Hgen as (He & Hr & Hl).
  repeat split; [exact He | exact Hr |].
  intros Hw. apply (Run_item_no_error_line TokenRevocation s s1).
  - change (fst (revokeToken s st) = (None, s1)). rewrite Hr, Hw.
    reflexivity.
  - change (error_lines (logs (snd (revokeToken s st)))
            = error_lines (logs st)). now rewrite Hl.
Qed.

(** C6, as the code has it.  When the renew-lease call of [renewCred]
    fails with a response error of status 400, [renewCred] hands the
    writer exactly one statement, the update of the credential's status
    to [expired], and what it returns is decided by the answer to that
    statement alone: nil when one row was updated, the wrapped error when
    the writer failed, an error of code [Unknown] when another row count
    came back.  The 400 itself is never returned. *)
Theorem renewCred_bad_request (c : privateCredential) (st : State)
  (w : Wrapper) (x1 : Ext) (c1 : privateCredential) (x2 : Ext)
  (vc : Client) (x3 : Ext) (r : result Secret) (x4 : Ext) :
  GetWrapper (cred_ScopeId c) (ext st) = (Ok w, x1) ->
  cred_decrypt c w x1 = ((None, c1), x2) ->
  cred_client c1 x2 = (Ok vc, x3) ->
  vc_renewLease vc (cred_ExternalId c1)
    (Time_Sub (cred_ExpirationTime c1) (cred_LastRenewalTime c1)) x3
  = (r, x4) ->
  respErr_is (result_err r) StatusBadRequest = true ->
  let q := Credential_updateStatusQuery (cred_toCredential c1)
             ExpiredCredential in
  let op := "vault.(CredentialRenewalJob).renewCred" in
  execs (snd (renewCred c st)) = execs st ++ [q] /\
  fst (renewCred c st)
  = (match fst (writer_Exec q x4) with
     | Err err => Some (E_Wrap err op None)
     | Ok numRows =>
         if (numRows =? 1)%Z then None
         else Some (E_New Unknown op
                      "credential expired but failed to update repo")
     end, c1).
Proof.
  intros H1 H2 H3 H4 H5 q op. subst q op.
  unfold renewCred. unfold_body.
  rewrite H1; cbn. rewrite H2; cbn. rewrite H3; cbn.
  rewrite H4; cbn. rewrite H5; cbn.
  destruct (writer_Exec _ x4) as [[n|e] x5]; cbn; [|split; reflexivity].
  destruct (n =? 1)%Z; cbn; split; reflexivity.
Qed.

(** ** The next run *)

(** C7.  For the two renewal jobs: when the first row of the query holds
    a negative time until renewal, [NextRunIn] returns 0 and no error;
    when the query fails, it returns the fallback of five minutes
    together with the (twice wrapped) error; when the query yields no
    row, it returns the fallback and no error. *)
Theorem NextRunIn_renewal (k : JobKind) (x : Ext) :
  k = TokenRenewal \/ k = CredentialRenewal ->
  let query :=
    match k with
    | CredentialRenewal => credentialRenewalNextRunInQuery
    | _ => tokenRenewalNextRunInQuery
    end in
  let op :=
    match k with
    | CredentialRenewal => "vault.(CredentialRenewalJob).NextRunIn"
    | _ => "vault.(TokenRenewalJob).NextRunIn"
    end in
  (forall (RenewalIn : Z) (more : Rows) (x' : Ext),
     reader_Query query x = (Ok (Ok RenewalIn :: more), x') ->
     (RenewalIn < 0)%Z ->
     NextRunIn k x = ((0%Z, None), x')) /\
  (forall (err : error) (x' : Ext),
     reader_Query query x = (Err err, x') ->
     NextRunIn k x
     = ((defaultNextRunIn,
         Some (E_Wrap (E_Wrap err "vault.nextRenewal" None) op None)), x')) /\
  (forall x' : Ext,
     reader_Query query x = (Ok [], x') ->
     NextRunIn k x = ((defaultNextRunIn, None), x')) /\
  defaultNextRunIn = (5 * 60 * 1000000000)%Z.
Proof.
  intros [-> | ->]; cbn zeta; repeat split.
  - intros n more x' Hq Hn. cbn [NextRunIn]. unfold nextRenewal.
    rewrite Hq. apply Z.ltb_lt in Hn. now rewrite Hn.
  - intros err x' Hq. cbn [NextRunIn]. unfold nextRenewal. now rewrite Hq.
  - intros x' Hq. cbn [NextRunIn]. unfold nextRenewal. now rewrite Hq.
  - intros n more x' Hq Hn. cbn [NextRunIn]. unfold nextRenewal.
    rewrite Hq. apply Z.ltb_lt in Hn. now rewrite Hn.
  - intros err x' Hq. cbn [NextRunIn]. unfold nextRenewal. now rewrite Hq.
  - intros x' Hq. cbn [NextRunIn]. unfold nextRenewal. now rewrite Hq.
Qed.

End JobFacts.

(** * Properties of the username and password extraction *)

Section ExtractFacts.
Import UserPassword.

(** A pair is whole when both parts are there, and void when neither is. *)
Lemma Extract_range_whole_or_void (fs : list userPassFunc) (d : data)
  (usernameAttr passwordAttr : string) :
  let (username, password) := Extract_range fs d usernameAttr passwordAttr in
  (username <> "" /\ password <> "") \/ (username = "" /\ password = "").
Proof.
  induction fs as [|f fs IH]; cbn.
  - right. split; reflexivity.
  - destruct (f d usernameAttr passwordAttr) as [u p].
    destruct (String.eqb u "") eqn:Hu; cbn; [exact IH|].
    destruct (String.eqb p "") eqn:Hp; cbn; [exact IH|].
    left. split; now apply String.eqb_neq.
Qed.

(** C10.  [Extract] never returns a partial result: for every map and
    every pair of attribute names the pair it returns has a non-empty
    username and a non-empty password, or is the pair of two empty
    strings. *)
Theorem Extract_no_partial_result (d : data)
  (usernameAttr passwordAttr : string) :
  let (username, password) := Extract d usernameAttr passwordAttr in
  (username <> "" /\ password <> "") \/ (username = "" /\ password = "").
Proof.
  unfold Extract. apply Extract_range_whole_or_void.
Qed.

(** A strategy that finds one of the two attributes only is passed over:
    here [defaultUserPass] finds the username and no password. *)
Example Extract_drops_partial :
  let d : data := <["username" := VString "admin"]> ∅ in
  defaultUserPass d "username" "password" = ("admin", "") /\
  Extract d "username" "password" = ("", "").
Proof. vm_compute. split; reflexivity. Qed.

(** The order in which the loop of [kv2UserPass] meets the entries of the
    map does not matter. *)
Lemma kv2_range_order (entries entries' : list (string * value))
  (data_ metadata : option (gmap string value)) :
  NoDup (entries.*1) ->
  Permutation entries entries' ->
  kv2_range entries data_ metadata = kv2_range entries' data_ metadata.
Proof.
  intros Hnd Hp. revert data_ metadata.
  induction Hp as [|[k v] l l' Hp IH|[k1 v1] [k2 v2] l|l l' l'' Hp1 IH1 Hp2 IH2];
    intros data_ metadata.
  - reflexivity.
  - rewrite fmap_cons in Hnd. apply NoDup_cons in Hnd as [_ Hnd]. cbn.
    destruct (String.eqb k "data"); [destruct v; auto|].
    destruct (String.eqb k "metadata"); [destruct v; auto|]. reflexivity.
  - rewrite !fmap_cons in Hnd. apply NoDup_cons in Hnd as [Hin _].
    apply not_elem_of_cons in Hin as [Hne _]. cbn in Hne. cbn.
    destruct (String.eqb k1 "data") eqn:E1, (String.eqb k2 "data") eqn:E2;
      try (apply String.eqb_eq in E1, E2; congruence);
      destruct (String.eqb k1 "metadata") eqn:F1,
               (String.eqb k2 "metadata") eqn:F2;
      try (apply String.eqb_eq in F1, F2; congruence);
      destruct v1, v2; reflexivity.
  - rewrite IH1 by exact Hnd. apply IH2. now rewrite <- Hp1.
Qed.

(** X21.  Whatever order the [range] over the map takes, [kv2UserPass]
    returns the same pair: run over any arrangement of the entries of
    [d], the loop gives what it gives over [map_to_list d]. *)
Lemma kv2UserPass_any_order (d : data) (entries : list (string * value))
  (usernameAttr passwordAttr : string) :
  Permutation (map_to_list d) entries ->
  kv2UserPass_in entries usernameAttr passwordAttr
  = kv2UserPass d usernameAttr passwordAttr.
Proof.
  intros Hp. unfold kv2UserPass, kv2UserPass_in.
  rewrite (kv2_range_order (map_to_list d) entries); [reflexivity| |exact Hp].
  apply NoDup_fst_map_to_list.
Qed.

End ExtractFacts.

(** * The jobs on explicit inputs *)

Section Runs.
Import Scenario.

(** ** A second [Run] while the flag is set *)

(** C1.  The code at a job whose flag is already set, with a context that
    is never done and a batch of one healthy item: whatever the job kind,
    [Run] does not return the already-running error; it returns nil, has
    processed the item (one statement written, [Status] is [(1, 1)]) and
    leaves the flag cleared. *)
Theorem Run_with_flag_set_runs_the_batch (k : JobKind) :
  let st := job true 0 0 [healthy "a"] in
  running st = true /\
  fst (Run k background st) = None /\
  length (execs (snd (Run k background st))) = 1%nat /\
  Status (snd (Run k background st)) = {| Completed := 1; Total := 1 |} /\
  running (snd (Run k background st)) = false.
Proof.
  destruct k; vm_compute; repeat split.
Qed.

(** ** Updates that miss their row *)



(** ** A 403 or a 400 followed by an update that misses its row *)

(** Against C3: renew-self fails with a 403, the update to [expired]
    reports no row, and [renewToken] returns an error, which [Run] logs
    as an error for that item. *)
Lemma renewToken_forbidden_may_fail :
  let s := vanished "a" 403 in
  let st := job false 0 0 [s] in
  let err := E_New Unknown "vault.(TokenRenewalJob).renewToken"
               "token expired but failed to update repo" in
  (forall w,
     respErr_is (result_err (fst (vc_renewToken (vault_code s) w)))
       StatusForbidden = true) /\
  fst (renewToken s st) = (Some err, s) /\
  execs (snd (renewToken s st))
  = [Token_updateStatusQuery (mkToken 0%Z 0%Z) ExpiredToken] /\
  logs (snd (Run TokenRenewal background st))
  = [LogError "error renewing token"
       [("credential store id", LStr "a"); ("token status", LStr "current");
        ("error", LErr err)]].
Proof.
  vm_compute. repeat split.
Qed.

Lemma renewToken_forbidden_witness :
  let s := rejected "a" 403 in
  let st := job false 0 0 [s] in
  execs (snd (renewToken s st))
  = [Token_updateStatusQuery (mkToken 1%Z 0%Z) ExpiredToken] /\
  fst (renewToken s st) = (None, s) /\
  error_lines (logs (Run_item TokenRenewal s st)) = [].
Proof.
  intros s st.
  destruct (renewToken_forbidden (C := scripted) s st tt (mkWorld 1 [s]) s (mkWorld 2 [s])
              (mkToken 1%Z 0%Z) 403%Z (mkWorld 3 [s])
              (Err (E_Wrap (E_Response 403) "vault.(client).renewToken" None))
              (mkWorld 4 [s]))
    as (He & Hr & Hl);
    try reflexivity.
  split; [exact He|]. split; [exact Hr|]. apply Hl. reflexivity.
Defined.

(** Against C5: revoke-self fails with a 403, the update to [revoked]
    reports no row, and [revokeToken] returns an error, which [Run] logs
    as an error for that item. *)
Lemma revokeToken_forbidden_may_fail :
  let s := vanished "a" 403 in
  let st := job false 0 0 [s] in
  let err := E_New Unknown "vault.(TokenRevocationJob).revokeToken"
               "token revoked but failed to update repo" in
  (forall w,
     respErr_is (fst (vc_revokeToken (vault_code s) w)) StatusForbidden
     = true) /\
  fst (revokeToken s st) = (Some err, s) /\
  execs (snd (revokeToken s st))
  = [Token_updateStatusQuery (mkToken 0%Z 0%Z) RevokedToken] /\
  logs (snd (Run TokenRevocation background st))
  = [LogError "error revoking token"
       [("credential store id", LStr "a"); ("error", LErr err)]].
Proof.
  vm_compute. repeat split.
Qed.

Lemma revokeToken_forbidden_witness :
  let s := rejected "a" 403 in
  let st := job false 0 0 [s] in
  execs (snd (revokeToken s st))
  = [Token_updateStatusQuery (mkToken 1%Z 0%Z) RevokedToken] /\
  fst (revokeToken s st) = (None, s) /\
  error_lines (logs (Run_item TokenRevocation s st)) = [].
Proof.
  intros s st.
  destruct (revokeToken_forbidden (C := scripted) s st tt (mkWorld 1 [s]) s (mkWorld 2 [s])
              (mkToken 1%Z 0%Z) 403%Z (mkWorld 3 [s])
              (Some (E_Wrap (E_Response 403) "vault.(client).revokeToken"
                       None))
              (mkWorld 4 [s]))
    as (He & Hr & Hl);
    try reflexivity.
  - left. reflexivity.
  - split; [exact He|]. split; [exact Hr|]. apply Hl. reflexivity.
Defined.

(** Against C6: renew-lease fails with a 400, the update to [expired]
    reports no row, and [renewCred] returns an error. *)
Lemma renewCred_bad_request_may_fail :
  let c := vanished "a" 400 in
  let st := job false 0 0 [c] in
  let err := E_New Unknown "vault.(CredentialRenewalJob).renewCred"
               "credential expired but failed to update repo" in
  (forall id d w,
     respErr_is (result_err (fst (vc_renewLease (vault_code c) id d w)))
       StatusBadRequest = true) /\
  fst (renewCred c st) = (Some err, c) /\
  execs (snd (renewCred c st))
  = [Credential_updateStatusQuery (mkCredential 0%Z 0%Z) ExpiredCredential].
Proof.
  vm_compute. repeat split.
Qed.

Lemma renewCred_bad_request_witness :
  let c := rejected "a" 400 in
  let st := job false 0 0 [c] in
  execs (snd (renewCred c st))
  = [Credential_updateStatusQuery (mkCredential 1%Z 0%Z) ExpiredCredential] /\
  fst (renewCred c st) = (None, c).
Proof.
  intros c st.
  apply (renewCred_bad_request (C := scripted) c st tt (mkWorld 1 [c]) c (mkWorld 2 [c])
           400%Z (mkWorld 3 [c])
           (Err (E_Wrap (E_Response 400) "vault.(client).renewLease" None))
           (mkWorld 4 [c]));
    reflexivity.
Defined.

(** ** Errors, counters and cancellation *)


(** Against C8: the context is canceled right after the selection of two
    items, so no item is processed (only the selection has touched the
    world, nothing is written or logged), yet the counters are
    [(0, 2)], not [(0, 0)]. *)
Lemma counters_are_set_to_batch_size :
  let st := job false 0 0 [healthy "a"; healthy "b"] in
  let r := Run TokenRenewal (canceled_from 1) st in
  ext (snd r) = tick (ext st) /\
  execs (snd r) = [] /\
  logs (snd r) = [] /\
  Status (snd r) = {| Completed := 0; Total := 2 |} /\
  Status (snd r) <> {| Completed := 0; Total := 0 |}.
Proof.
  vm_compute. repeat split. discriminate.
Qed.

Lemma Run_counters_follow_batch_witness :
  let a := healthy "a" in
  let b := rejected "b" 500 in
  let st := job false 9 9 [a; b] in
  Status (snd (Run TokenRenewal background st))
  = {| Completed := 2; Total := 2 |}.
Proof.
  intros a b st.
  destruct (Run_counters_follow_batch (C := scripted) TokenRenewal background st [a; b] []
              (tick (ext st))
              (snd (Run_range TokenRenewal background [a; b]
                      (loop_entry st [a; b] (tick (ext st))))))
    as (_ & _ & H); [reflexivity | reflexivity |].
  destruct H as (Hst & _ & Hfin); [reflexivity|].
  rewrite (Hfin eq_refl). exact Hst.
Defined.

Lemma Run_context_done_witness :
  let a := healthy "a" in
  let b := healthy "b" in
  let st := job false 5 7 [a; b] in
  let c := E_Context "context canceled" in
  Run TokenRenewal (canceled_from 0) st
  = (Some (E_Wrap c (Run_op TokenRenewal) None), set_running false st) /\
  fst (Run TokenRenewal (canceled_from 6) st)
  = Some (E_Wrap c (Run_op TokenRenewal) None) /\
  numProcessed (snd (Run TokenRenewal (canceled_from 6) st)) = 1%Z.
Proof.
  intros a b st c. split.
  - apply (proj1 (Run_context_done (C := scripted) TokenRenewal (canceled_from 0) st c)).
    reflexivity.
  - destruct (proj2 (Run_context_done (C := scripted) TokenRenewal (canceled_from 6) st c)
                [a] b [] (tick (ext st))
                (snd (Run_range TokenRenewal (canceled_from 6) [a]
                        (loop_entry st [a; b] (tick (ext st))))))
      as [HRun Hp]; try reflexivity.
    rewrite HRun. split; [reflexivity | exact Hp].
Defined.

(** ** The next run *)

Lemma NextRunIn_renewal_witness :
  NextRunIn TokenRenewal (mkWorld 0 [mkItem "a" "current" 200 (-30)])
  = ((0%Z, None), mkWorld 1 [mkItem "a" "current" 200 (-30)]) /\
  NextRunIn CredentialRenewal (mkWorld 0 [])
  = ((defaultNextRunIn, None), mkWorld 1 []).
Proof.
  split.
  - destruct (NextRunIn_renewal (C := scripted) TokenRenewal
                (mkWorld 0 [mkItem "a" "current" 200 (-30)]))
      as (H & _); [left; reflexivity|].
    apply (H (-30)%Z []); [reflexivity | lia].
  - destruct (NextRunIn_renewal (C := scripted) CredentialRenewal (mkWorld 0 []))
      as (_ & _ & H & _); [right; reflexivity|].
    apply H. reflexivity.
Defined.

End Runs.

(** * Further properties of the jobs *)

Section MoreJobFacts.
Context {C : Collab}.

(** ** Construction and identity *)

(** X1.  A constructor fails exactly when one of its four dependencies is nil,
    and then with an error of code [InvalidParameter]; otherwise it
    yields an idle job (flag clear, [Status] [(0, 0)], nothing written
    or logged) whose limit is the limit asked for, or the default when
    zero was asked for. *)
Theorem NewJob_checks_dependencies (k : JobKind) (DefaultLimit : Z)
  (r w kms logger : bool) (withLimit : Z) (x : Ext) :
  match NewJob k DefaultLimit r w kms logger withLimit x with
  | Err e =>
      r && w && kms && logger = false /\
      exists op msg, e = E_New InvalidParameter op msg
  | Ok st =>
      r && w && kms && logger = true /\
      limit st = (if (withLimit =? 0)%Z then DefaultLimit else withLimit) /\
      running st = false /\
      Status st = {| Completed := 0; Total := 0 |} /\
      ext st = x /\ execs st = [] /\ logs st = []
  end.
Proof.
  destruct k, r, w, kms, logger; cbn; eauto 10.
Qed.

(** X2.  The four jobs have four different names. *)
Theorem Name_is_unique (k1 k2 : JobKind) :
  Name k1 = Name k2 -> k1 = k2.
Proof.
  destruct k1, k2; cbn; intros H; try reflexivity; discriminate H.
Qed.

(** ** What an item's processing writes *)

Lemma process_execs (k : JobKind) (it : Item k) (st : State) :
  execs (snd (process k it st)) = execs st \/
  exists q, execs (snd (process k it st)) = execs st ++ [q] /\
            job_writes k q = true.
Proof.
  destruct k; cbn [process Item] in *;
    [unfold renewToken | unfold revokeToken
    | unfold renewCred | unfold revokeCred];
    run_body;
    solve [left; reflexivity | right; eexists; split; reflexivity].
Qed.

(** X3.  Processing one item hands the writer no statement or exactly one,
    and only a statement of the job's own: the token renewal job sets a
    token's expiration or its status to [expired], the token revocation
    job sets a token's status to [revoked], and likewise for the two
    credential jobs. *)
Theorem process_writes_at_most_once (k : JobKind) (it : Item k)
  (st : State) :
  execs (snd (process k it st)) = execs st \/
  exists q, execs (snd (process k it st)) = execs st ++ [q] /\
            job_writes k q = true.
Proof.
  destruct k; cbn [process Item] in *;
    [unfold renewToken | unfold revokeToken
    | unfold renewCred | unfold revokeCred];
    run_body;
    first [left; reflexivity | right; eexists; split; reflexivity].
Qed.

Lemma Run_range_execs (k : JobKind) (ctx : Context) (items : list (Item k))
  (st : State) :
  exists l,
    execs (snd (Run_range k ctx items st)) = execs st ++ l /\
    (length l <= length items)%nat /\
    forallb (job_writes k) l = true.
Proof.
  revert st. induction items as [|it items IH]; intros st; cbn [Run_range].
  - exists []. cbn. rewrite app_nil_r. repeat split; lia.
  - destruct (ctx (ext st)).
    + exists []. cbn. rewrite app_nil_r. repeat split; lia.
    + destruct (IH (Run_item k it st)) as (l & Hl & Hlen & Hall).
      rewrite Hl. destruct (Run_item_world k it st) as [_ ->].
      destruct (process_execs k it st) as [-> | (q & -> & Hq)].
      * exists l. cbn. repeat split; [lia | exact Hall].
      * exists (q :: l). rewrite <- app_assoc. cbn.
        rewrite Hq, Hall. repeat split; lia.
Qed.

(** X4.  A [Run] only adds to what was written before it, it adds at most one
    statement per selected item (none when the selection fails or the
    context is done), and every statement it adds is one of the job's
    own. *)
Theorem Run_writes_at_most_once_per_item (k : JobKind) (ctx : Context)
  (st : State) :
  exists l,
    execs (snd (Run k ctx st)) = execs st ++ l /\
    forallb (job_writes k) l = true /\
    match fst (select k (limit st) (ext st)) with
    | Ok items => (length l <= length items)%nat
    | Err _ => l = []
    end /\
    match ctx (ext st) with
    | Some _ => l = []
    | None => True
    end.
Proof.
  rewrite Run_unfold. unfold Run_steps.
  destruct (ctx (ext st)) as [c|] eqn:Hc.
  - exists []. cbn. rewrite app_nil_r. repeat split.
    destruct (fst (select k (limit st) (ext st))); [cbn; lia | reflexivity].
  - destruct (select k (limit st) (ext st)) as [[items|e] x1]; cbn [fst].
    + destruct (Run_range_execs k ctx items
                  (set_counters 0 (Z.of_nat (length items))
                     (set_ext x1 (set_running true st))))
        as (l & Hl & Hlen & Hall).
      destruct (Run_range k ctx items _) as [r st']. cbn in *.
      exists l. repeat split; assumption.
    + exists []. cbn. rewrite app_nil_r. repeat split.
Qed.

(** ** The paths of the per-item functions *)

(** X5.  When the database wrapper of the item's scope cannot be had, the
    item's processing stops there whatever the job: the error is
    returned wrapped with the message "unable to get database wrapper",
    the item is as before, and nothing else has happened to the world,
    to the statements written or to the log. *)
Theorem process_without_wrapper (k : JobKind) (it : Item k) (st : State)
  (err : error) (x1 : Ext) :
  GetWrapper (item_ScopeId k it) (ext st) = (Err err, x1) ->
  exists op,
    process k it st
    = ((Some (E_Wrap err op (Some "unable to get database wrapper")), it),
       set_ext x1 st).
Proof.
  intros H.
  destruct k; cbn [process Item item_ScopeId] in *;
    [unfold renewToken | unfold revokeToken
    | unfold renewCred | unfold revokeCred];
    unfold_body; rewrite H; cbn; eexists; reflexivity.
Qed.

(** X6.  A store that holds no token is skipped by the token renewal job and
    by the token revocation job: no error, no call to Vault, nothing
    written or logged. *)
Theorem store_without_token_is_skipped (s : privateStore) (st : State)
  (w : Wrapper) (x1 : Ext) (s1 : privateStore) (x2 : Ext) :
  GetWrapper (store_ScopeId s) (ext st) = (Ok w, x1) ->
  store_decrypt s w x1 = ((None, s1), x2) ->
  store_token s1 = None ->
  renewToken s st = ((None, s1), set_ext x2 st) /\
  revokeToken s st = ((None, s1), set_ext x2 st).
Proof.
  intros H1 H2 H3. split; [unfold renewToken | unfold revokeToken];
    unfold_body; rewrite H1; cbn; rewrite H2; cbn; rewrite H3; reflexivity.
Qed.

(** X7.  When renew-self succeeds and the new time to live can be read from
    the answer, [renewToken] hands the writer exactly one statement, the
    update of the expiration of the token with that time to live, and
    returns nil exactly when one row was updated. *)
Theorem renewToken_renews (s : privateStore) (st : State)
  (w : Wrapper) (x1 : Ext) (s1 : privateStore) (x2 : Ext)
  (token : Token TokenData) (vc : Client) (x3 : Ext)
  (renewedToken : Secret) (x4 : Ext) (tokenExpires : Duration) :
  GetWrapper (store_ScopeId s) (ext st) = (Ok w, x1) ->
  store_decrypt s w x1 = ((None, s1), x2) ->
  store_token s1 = Some token ->
  store_client s1 x2 = (Ok vc, x3) ->
  vc_renewToken vc x3 = (Ok renewedToken, x4) ->
  Secret_TokenTTL renewedToken = Ok tokenExpires ->
  let q := Token_updateExpirationQuery
             (mkToken (Token_store token) tokenExpires) in
  let op := "vault.(TokenRenewalJob).renewToken" in
  execs (snd (renewToken s st)) = execs st ++ [q] /\
  logs (snd (renewToken s st)) = logs st /\
  fst (renewToken s st)
  = (match fst (writer_Exec q x4) with
     | Err err => Some (E_Wrap err op None)
     | Ok numRows =>
         if (numRows =? 1)%Z then None
         else Some (E_New Unknown op
                      "token renewed but failed to update repo")
     end, s1).
Proof.
  intros H1 H2 H3 H4 H5 H6 q op. subst q op.
  unfold renewToken. unfold_body.
  rewrite H1; cbn. rewrite H2; cbn. rewrite H3; cbn.
  rewrite H4; cbn. rewrite H5; cbn. rewrite H6; cbn.
  destruct (writer_Exec _ x4) as [[n|e] x5]; cbn; [|repeat split].
  destruct (n =? 1)%Z; cbn; repeat split.
Qed.

(** X8.  When renew-self fails and the failure is not a response of status
    403, the token is left alone: [renewToken] writes nothing, logs
    nothing and returns the error wrapped with "unable to renew vault
    token". *)
Theorem renewToken_other_failure (s : privateStore) (st : State)
  (w : Wrapper) (x1 : Ext) (s1 : privateStore) (x2 : Ext)
  (token : Token TokenData) (vc : Client) (x3 : Ext)
  (err : error) (x4 : Ext) :
  GetWrapper (store_ScopeId s) (ext st) = (Ok w, x1) ->
  store_decrypt s w x1 = ((None, s1), x2) ->
  store_token s1 = Some token ->
  store_client s1 x2 = (Ok vc, x3) ->
  vc_renewToken vc x3 = (Err err, x4) ->
  As_ResponseError err <> Some StatusForbidden ->
  renewToken s st
  = ((Some (E_Wrap err "vault.(TokenRenewalJob).renewToken"
              (Some "unable to renew vault token")), s1),
     set_ext x4 st).
Proof.
  intros H1 H2 H3 H4 H5 H6.
  unfold renewToken. unfold_body.
  rewrite H1; cbn. rewrite H2; cbn. rewrite H3; cbn.
  rewrite H4; cbn. rewrite H5; cbn.
  destruct (As_ResponseError err) as [c|]; [|reflexivity].
  destruct (Z.eqb_spec c StatusForbidden) as [->|Hne];
    [now elim H6 | reflexivity].
Qed.

(** X10.  When renew-lease succeeds, [renewCred] hands the writer exactly one
    statement, the update of the credential's expiration to the lease
    duration of the answer taken as seconds (in 64-bit arithmetic), and
    returns nil exactly when one row was updated.  The lease is asked
    for with the duration between the credential's last renewal and its
    expiration. *)
Theorem renewCred_renews (c : privateCredential) (st : State)
  (w : Wrapper) (x1 : Ext) (c1 : privateCredential) (x2 : Ext)
  (vc : Client) (x3 : Ext) (renewedCred : Secret) (x4 : Ext) :
  GetWrapper (cred_ScopeId c) (ext st) = (Ok w, x1) ->
  cred_decrypt c w x1 = ((None, c1), x2) ->
  cred_client c1 x2 = (Ok vc, x3) ->
  vc_renewLease vc (cred_ExternalId c1)
    (Time_Sub (cred_ExpirationTime c1) (cred_LastRenewalTime c1)) x3
  = (Ok renewedCred, x4) ->
  let q := Credential_updateExpirationQuery
             (mkCredential (Credential_store (cred_toCredential c1))
                (wrap64 (Secret_LeaseDuration renewedCred * Second))) in
  let op := "vault.(CredentialRenewalJob).renewCred" in
  execs (snd (renewCred c st)) = execs st ++ [q] /\
  fst (renewCred c st)
  = (match fst (writer_Exec q x4) with
     | Err err => Some (E_Wrap err op None)
     | Ok numRows =>
         if (numRows =? 1)%Z then None
         else Some (E_New Unknown op
                      "credential renewed but failed to update repo")
     end, c1).
Proof.
  intros H1 H2 H3 H4 q op. subst q op.
  unfold renewCred. unfold_body.
  rewrite H1; cbn. rewrite H2; cbn. rewrite H3; cbn. rewrite H4; cbn.
  destruct (writer_Exec _ x4) as [[n|e] x5]; cbn; [|split; reflexivity].
  destruct (n =? 1)%Z; cbn; split; reflexivity.
Qed.

(** X11.  When renew-lease fails and the failure is not a response of status
    400 (a 403 included), the credential is left alone: [renewCred]
    writes nothing and returns the error wrapped with "unable to renew
    credential". *)
Theorem renewCred_other_failure (c : privateCredential) (st : State)
  (w : Wrapper) (x1 : Ext) (c1 : privateCredential) (x2 : Ext)
  (vc : Client) (x3 : Ext) (err : error) (x4 : Ext) :
  GetWrapper (cred_ScopeId c) (ext st) = (Ok w, x1) ->
  cred_decrypt c w x1 = ((None, c1), x2) ->
  cred_client c1 x2 = (Ok vc, x3) ->
  vc_renewLease vc (cred_ExternalId c1)
    (Time_Sub (cred_ExpirationTime c1) (cred_LastRenewalTime c1)) x3
  = (Err err, x4) ->
  As_ResponseError err <> Some StatusBadRequest ->
  renewCred c st
  = ((Some (E_Wrap err "vault.(CredentialRenewalJob).renewCred"
              (Some "unable to renew credential")), c1),
     set_ext x4 st).
Proof.
  intros H1 H2 H3 H4 H5.
  unfold renewCred. unfold_body.
  rewrite H1; cbn. rewrite H2; cbn. rewrite H3; cbn. rewrite H4; cbn.
  destruct (As_ResponseError err) as [n|]; [|reflexivity].
  destruct (Z.eqb_spec n StatusBadRequest) as [->|Hne];
    [now elim H5 | reflexivity].
Qed.

(** X12.  The credential revocation job classifies no answer of Vault: every
    failure of revoke-lease, a 403 or a 400 included, leaves the
    credential alone ([revokeCred] writes nothing and returns the error
    wrapped with "unable to revoke credential"). *)
Theorem revokeCred_any_failure (c : privateCredential) (st : State)
  (w : Wrapper) (x1 : Ext) (c1 : privateCredential) (x2 : Ext)
  (vc : Client) (x3 : Ext) (err : error) (x4 : Ext) :
  GetWrapper (cred_ScopeId c) (ext st) = (Ok w, x1) ->
  cred_decrypt c w x1 = ((None, c1), x2) ->
  cred_client c1 x2 = (Ok vc, x3) ->
  vc_revokeLease vc (cred_ExternalId c1) x3 = (Some err, x4) ->
  revokeCred c st
  = ((Some (E_Wrap err "vault.(CredentialRenewalJob).revokeCred"
              (Some "unable to revoke credential")), c1),
     set_ext x4 st).
Proof.
  intros H1 H2 H3 H4.
  unfold revokeCred. unfold_body.
  rewrite H1; cbn. rewrite H2; cbn. rewrite H3; cbn. rewrite H4; cbn.
  reflexivity.
Qed.

(** X13.  When revoke-lease succeeds, [revokeCred] hands the writer exactly
    one statement, the update of the credential's status to [revoked],
    and returns nil exactly when one row was updated. *)
Theorem revokeCred_revokes (c : privateCredential) (st : State)
  (w : Wrapper) (x1 : Ext) (c1 : privateCredential) (x2 : Ext)
  (vc : Client) (x3 : Ext) (x4 : Ext) :
  GetWrapper (cred_ScopeId c) (ext st) = (Ok w, x1) ->
  cred_decrypt c w x1 = ((None, c1), x2) ->
  cred_client c1 x2 = (Ok vc, x3) ->
  vc_revokeLease vc (cred_ExternalId c1) x3 = (None, x4) ->
  let q := Credential_updateStatusQuery (cred_toCredential c1)
             RevokedCredential in
  let op := "vault.(CredentialRenewalJob).revokeCred" in
  execs (snd (revokeCred c st)) = execs st ++ [q] /\
  fst (revokeCred c st)
  = (match fst (writer_Exec q x4) with
     | Err err => Some (E_Wrap err op None)
     | Ok numRows =>
         if (numRows =? 1)%Z then None
         else Some (E_New Unknown op
                      "credential revoked but failed to update repo")
     end, c1).
Proof.
  intros H1 H2 H3 H4 q op. subst q op.
  unfold revokeCred. unfold_body.
  rewrite H1; cbn. rewrite H2; cbn. rewrite H3; cbn. rewrite H4; cbn.
  destruct (writer_Exec _ x4) as [[n|e] x5]; cbn; [|split; reflexivity].
  destruct (n =? 1)%Z; cbn; split; reflexivity.
Qed.

(** X9.  When revoke-self fails and the failure is not a response of status
    403, the token is left alone: [revokeToken] writes nothing and
    returns the error wrapped with "unable to revoke vault token". *)
Theorem revokeToken_other_failure (s : privateStore) (st : State)
  (w : Wrapper) (x1 : Ext) (s1 : privateStore) (x2 : Ext)
  (token : Token TokenData) (vc : Client) (x3 : Ext)
  (err : error) (x4 : Ext) :
  GetWrapper (store_ScopeId s) (ext st) = (Ok w, x1) ->
  store_decrypt s w x1 = ((None, s1), x2) ->
  store_token s1 = Some token ->
  store_client s1 x2 = (Ok vc, x3) ->
  vc_revokeToken vc x3 = (Some err, x4) ->
  As_ResponseError err <> Some StatusForbidden ->
  revokeToken s st
  = ((Some (E_Wrap err "vault.(TokenRevocationJob).revokeToken"
              (Some "unable to revoke vault token")), s1),
     set_ext x4 st).
Proof.
  intros H1 H2 H3 H4 H5 H6.
  unfold revokeToken. unfold_body.
  rewrite H1; cbn. rewrite H2; cbn. rewrite H3; cbn.
  rewrite H4; cbn. rewrite H5; cbn.
  destruct (As_ResponseError err) as [c|]; [|reflexivity].
  destruct (Z.eqb_spec c StatusForbidden) as [->|Hne];
    [now elim H6 | reflexivity].
Qed.

(** ** The log *)

Lemma process_error_lines (k : JobKind) (it : Item k) (st : State) :
  error_lines (logs (snd (process k it st))) = error_lines (logs st).
Proof.
  unfold error_lines.
  destruct k; cbn [process Item] in *;
    [unfold renewToken | unfold revokeToken
    | unfold renewCred | unfold revokeCred];
    run_body; rewrite ?filter_app; cbn; rewrite ?app_nil_r; reflexivity.
Qed.

(** X14.  A turn of the loop adds exactly one error line to the log when the
    item's processing failed, the line of the job with the item and the
    error, and no error line when it succeeded. *)
Theorem Run_item_error_lines (k : JobKind) (it : Item k) (st : State) :
  error_lines (logs (Run_item k it st))
  = error_lines (logs st) ++
    match fst (process k it st) with
    | (Some err, it') => [item_error_log k it' err]
    | (None, _) => []
    end.
Proof.
  rewrite Run_item_logs. unfold error_lines at 1. rewrite filter_app.
  fold (error_lines (logs (snd (process k it st)))).
  rewrite process_error_lines. f_equal.
  destruct (process k it st) as [[[e|] it'] st1]; cbn; [|reflexivity].
  destruct k; reflexivity.
Qed.

(** ** Progress and the ways a [Run] ends *)

Lemma Run_range_progress (k : JobKind) (ctx : Context)
  (items : list (Item k)) (st : State) :
  numProcessed st <= numProcessed (snd (Run_range k ctx items st))
    <= numProcessed st + Z.of_nat (length items) /\
  (fst (Run_range k ctx items st) = None <->
   numProcessed (snd (Run_range k ctx items st))
   = numProcessed st + Z.of_nat (length items)).
Proof.
  revert st. induction items as [|it items IH]; intros st; cbn [Run_range].
  - cbn. split; [lia|]. split; [lia | reflexivity].
  - rewrite length_cons, Nat2Z.inj_succ.
    destruct (ctx (ext st)) as [c|].
    + cbn. split; [lia|]. split; [discriminate | lia].
    + destruct (IH (Run_item k it st)) as [Hb Hiff].
      destruct (Run_item_same_job k it st) as (_ & _ & _ & Hp).
      rewrite Hp in Hb, Hiff. split; [lia|].
      rewrite Hiff. split; lia.
Qed.

(** X15.  Once the selection has succeeded, [Status] after the [Run] has the
    size of the batch as its total and a completed count between 0 and
    that total, and the [Run] returned nil exactly when the two are
    equal: a [Run] stopped by its context has counted fewer items than
    it selected. *)
Theorem Run_progress (k : JobKind) (ctx : Context) (st : State)
  (items : list (Item k)) (x1 : Ext) :
  ctx (ext st) = None ->
  select k (limit st) (ext st) = (Ok items, x1) ->
  let s := Status (snd (Run k ctx st)) in
  Total s = Z.of_nat (length items) /\
  0 <= Completed s <= Total s /\
  (fst (Run k ctx st) = None <-> Completed s = Total s).
Proof.
  intros Hc Hs. rewrite Run_unfold. unfold Run_steps. rewrite Hc, Hs.
  pose proof (Run_range_progress k ctx items
                (set_counters 0 (Z.of_nat (length items))
                   (set_ext x1 (set_running true st)))) as [Hb Hiff].
  pose proof (Run_range_job k ctx items
                (set_counters 0 (Z.of_nat (length items))
                   (set_ext x1 (set_running true st)))) as (_ & _ & Ht & _).
  destruct (Run_range k ctx items _) as [r st']. cbn in *.
  rewrite Ht. repeat split; try lia.
  - intros Hr. apply Hiff in Hr. lia.
  - intros Hr. apply Hiff. lia.
Qed.

(** X16.  When the batch selection fails, [Run] returns its error wrapped with
    the job's operation; the query is all that has happened: the
    counters keep the values of the earlier run, nothing is written or
    logged, and the flag is clear. *)
Theorem Run_selection_failure (k : JobKind) (ctx : Context) (st : State)
  (se : error) (x1 : Ext) :
  ctx (ext st) = None ->
  select k (limit st) (ext st) = (Err se, x1) ->
  Run k ctx st
  = (Some (E_Wrap se (Run_op k) None), set_running false (set_ext x1 st)).
Proof.
  intros Hc Hs. rewrite Run_unfold. unfold Run_steps.
  now rewrite Hc, Hs.
Qed.

(** X17.  However a [Run] ends, it leaves the flag clear and the batch limit
    as it was. *)
Theorem Run_leaves_job_idle (k : JobKind) (ctx : Context) (st : State) :
  running (snd (Run k ctx st)) = false /\
  limit (snd (Run k ctx st)) = limit st.
Proof.
  rewrite Run_unfold. unfold Run_steps.
  destruct (ctx (ext st)); [split; reflexivity|].
  destruct (select k (limit st) (ext st)) as [[items|e] x1];
    [|split; reflexivity].
  pose proof (Run_range_job k ctx items
                (set_counters 0 (Z.of_nat (length items))
                   (set_ext x1 (set_running true st)))) as (Hl & _).
  destruct (Run_range k ctx items _) as [r st']. cbn in *.
  split; [reflexivity | exact Hl].
Qed.

(** ** More on the next run *)

Lemma wrap64_in_range (z : Z) :
  MinInt64 <= z <= MaxInt64 -> wrap64 z = z.
Proof.
  unfold MinInt64, MaxInt64, wrap64. intros H.
  rewrite Z.mod_small by lia. lia.
Qed.

(** X18.  For the two renewal jobs, a time until renewal that is not negative
    and whose nanoseconds fit 64 bits is returned as is, in nanoseconds,
    with no error. *)
Theorem NextRunIn_in_range (k : JobKind) (x : Ext) (RenewalIn : Z)
  (more : Rows) (x' : Ext) :
  k = TokenRenewal \/ k = CredentialRenewal ->
  reader_Query
    match k with
    | CredentialRenewal => credentialRenewalNextRunInQuery
    | _ => tokenRenewalNextRunInQuery
    end x = (Ok (Ok RenewalIn :: more), x') ->
  0 <= RenewalIn ->
  RenewalIn * Second <= MaxInt64 ->
  NextRunIn k x = ((RenewalIn * Second, None), x') /\
  0 <= RenewalIn * Second.
Proof.
  intros Hk Hq H0 Hmax.
  assert (Hpos : 0 <= RenewalIn * Second) by (unfold Second; lia).
  split; [|exact Hpos].
  destruct Hk as [-> | ->]; cbn [NextRunIn]; unfold nextRenewal;
    rewrite Hq; (destruct (Z.ltb_spec RenewalIn 0); [lia|]);
    rewrite wrap64_in_range by (unfold MinInt64; lia); reflexivity.
Qed.

(** X19.  The check for a negative time until renewal does not cover the
    product: when the nanoseconds need the 64th bit the multiplication
    wraps, and [NextRunIn] returns a negative duration with no error. *)
Theorem NextRunIn_wraps (k : JobKind) (x : Ext) (RenewalIn : Z)
  (more : Rows) (x' : Ext) :
  k = TokenRenewal \/ k = CredentialRenewal ->
  reader_Query
    match k with
    | CredentialRenewal => credentialRenewalNextRunInQuery
    | _ => tokenRenewalNextRunInQuery
    end x = (Ok (Ok RenewalIn :: more), x') ->
  2 ^ 63 <= RenewalIn * Second < 2 ^ 64 ->
  NextRunIn k x = ((RenewalIn * Second - 2 ^ 64, None), x') /\
  RenewalIn * Second - 2 ^ 64 < 0.
Proof.
  intros Hk Hq Hr.
  assert (Hn : 0 <= RenewalIn) by (unfold Second in Hr; lia).
  assert (Hw : wrap64 (RenewalIn * Second) = RenewalIn * Second - 2 ^ 64).
  { unfold wrap64.
    replace (RenewalIn * Second + 2 ^ 63)
      with (RenewalIn * Second - 2 ^ 63 + 1 * 2 ^ 64) by lia.
    rewrite Z.mod_add by lia. rewrite Z.mod_small by lia. lia. }
  split; [|lia].
  destruct Hk as [-> | ->]; cbn [NextRunIn]; unfold nextRenewal;
    rewrite Hq; (destruct (Z.ltb_spec RenewalIn 0); [lia|]);
    rewrite Hw; reflexivity.
Qed.

(** X20.  Whatever the job and whatever the reader answers, an error of
    [NextRunIn] comes with the fallback of five minutes (a failed scan
    of the first row included), so the caller can always schedule. *)
Theorem NextRunIn_error_has_fallback (k : JobKind) (x : Ext)
  (d : Duration) (e : error) (x' : Ext) :
  NextRunIn k x = ((d, Some e), x') -> d = defaultNextRunIn.
Proof.
  destruct k; cbn [NextRunIn]; try (intros [= <- _ _]; reflexivity);
    unfold nextRenewal;
    match goal with
    | |- context [reader_Query ?q x] =>
        destruct (reader_Query q x) as [[[|[n|se] rows]|qe] x1]
    end;
    try (destruct (n <? 0)%Z); cbn; intros [= <- _ _]; try reflexivity.
Qed.

End MoreJobFacts.

(** * Further properties of the extraction *)

Section MoreExtractFacts.
Import UserPassword.

Lemma string_at_found (sd : data) (attr s : string) :
  string_at sd attr = s -> s <> "" -> sd !! attr = Some (VString s).
Proof.
  unfold string_at. destruct (sd !! attr) as [[u| |]|]; congruence.
Qed.

(** The loop gets through the entries only if every key is "data" or
    "metadata" and every value is a map. *)
Lemma kv2_range_entries (l : list (string * value))
  (da me da' me' : option (gmap string value)) (k : string) (v : value) :
  kv2_range l da me = Some (da', me') ->
  (k, v) ∈ l ->
  (k = "data" \/ k = "metadata") /\ exists m, v = VMap m.
Proof.
  revert da me. induction l as [|[k0 v0] l IH]; intros da me Hr Hin.
  - inversion Hin.
  - cbn in Hr.
    destruct (String.eqb_spec k0 "data") as [->|Hd].
    + destruct v0 as [|m0|]; try discriminate.
      apply elem_of_cons in Hin as [[= -> ->]|Hin]; eauto.
    + destruct (String.eqb_spec k0 "metadata") as [->|Hm];
        [|discriminate].
      destruct v0 as [|m0|]; try discriminate.
      apply elem_of_cons in Hin as [[= -> ->]|Hin]; eauto.
Qed.

(** What the loop leaves in [data]: the value met under "data", or the
    initial value when there is no such entry. *)
Lemma kv2_range_data (l : list (string * value))
  (da me da' me' : option (gmap string value)) :
  kv2_range l da me = Some (da', me') ->
  NoDup (l.*1) ->
  ((forall v, (("data", v) : string * value) ∉ l) -> da' = da) /\
  (forall m, (("data", VMap m) : string * value) ∈ l -> da' = m).
Proof.
  revert da me. induction l as [|[k0 v0] l IH]; intros da me Hr Hnd.
  - cbn in Hr. injection Hr as <- <-. split; [reflexivity|].
    intros m Hin. inversion Hin.
  - rewrite fmap_cons in Hnd. apply NoDup_cons in Hnd as [Hk0 Hnd].
    cbn in Hr, Hk0.
    destruct (String.eqb_spec k0 "data") as [->|Hd].
    + destruct v0 as [|m0|]; try discriminate.
      destruct (IH _ _ Hr Hnd) as [Hno _].
      assert (Hfresh : forall v, (("data", v) : string * value) ∉ l).
      { intros v Hv. apply Hk0.
        apply (list_elem_of_fmap_2 fst) in Hv. exact Hv. }
      split.
      * intros Hnone. exfalso. apply (Hnone (VMap m0)). left.
      * intros m Hin. apply elem_of_cons in Hin as [[= ->]|Hin];
          [now apply Hno | now elim (Hfresh (VMap m))].
    + destruct (String.eqb_spec k0 "metadata") as [->|Hm];
        [|discriminate].
      destruct v0 as [|m0|]; try discriminate.
      destruct (IH _ _ Hr Hnd) as [Hno Hyes]. split.
      * intros Hnone. apply Hno. intros v Hv. apply (Hnone v). now right.
      * intros m Hin. apply elem_of_cons in Hin as [Heq|Hin];
          [discriminate Heq | now apply Hyes].
Qed.

(** The same for [metadata]: it stays nil unless there is an entry
    "metadata", and a nil map under "metadata" leaves it nil. *)
Lemma kv2_range_metadata (l : list (string * value))
  (da me da' me' : option (gmap string value)) :
  kv2_range l da me = Some (da', me') ->
  NoDup (l.*1) ->
  ((forall v, (("metadata", v) : string * value) ∉ l) -> me' = me) /\
  (forall m, (("metadata", VMap m) : string * value) ∈ l -> me' = m).
Proof.
  revert da me. induction l as [|[k0 v0] l IH]; intros da me Hr Hnd.
  - cbn in Hr. injection Hr as <- <-. split; [reflexivity|].
    intros m Hin. inversion Hin.
  - rewrite fmap_cons in Hnd. apply NoDup_cons in Hnd as [Hk0 Hnd].
    cbn in Hr, Hk0.
    destruct (String.eqb_spec k0 "data") as [->|Hd].
    + destruct v0 as [|m0|]; try discriminate.
      destruct (IH _ _ Hr Hnd) as [Hno Hyes]. split.
      * intros Hnone. apply Hno. intros v Hv. apply (Hnone v). now right.
      * intros m Hin. apply elem_of_cons in Hin as [Heq|Hin];
          [discriminate Heq | now apply Hyes].
    + destruct (String.eqb_spec k0 "metadata") as [->|Hm];
        [|discriminate].
      destruct v0 as [|m0|]; try discriminate.
      destruct (IH _ _ Hr Hnd) as [Hno _].
      assert (Hfresh : forall v, (("metadata", v) : string * value) ∉ l).
      { intros v Hv. apply Hk0.
        apply (list_elem_of_fmap_2 fst) in Hv. exact Hv. }
      split.
      * intros Hnone. exfalso. apply (Hnone (VMap m0)). left.
      * intros m Hin. apply elem_of_cons in Hin as [[= ->]|Hin];
          [now apply Hno | now elim (Hfresh (VMap m))].
Qed.

Lemma kv2UserPass_shape (d : data) (usernameAttr passwordAttr : string) :
  kv2UserPass d usernameAttr passwordAttr <> ("", "") ->
  exists m m',
    d = kv2_secret m m' /\
    kv2UserPass d usernameAttr passwordAttr
    = (string_at m usernameAttr, string_at m passwordAttr).
Proof.
  unfold kv2UserPass, kv2UserPass_in.
  destruct (kv2_range (map_to_list d) None None) as [[[m|] [m'|]]|] eqn:E;
    intros H; try (now elim H).
  exists m, m'. split; [|reflexivity].
  pose proof (NoDup_fst_map_to_list d) as Hnd.
  destruct (kv2_range_data _ _ _ _ _ E Hnd) as [HnoD HyesD].
  destruct (kv2_range_metadata _ _ _ _ _ E Hnd) as [HnoM HyesM].
  assert (Hd : d !! "data" = Some (VMap (Some m))).
  { destruct (d !! "data") as [v|] eqn:Hv.
    - apply elem_of_map_to_list in Hv.
      destruct (kv2_range_entries _ _ _ _ _ _ _ E Hv) as [_ [m0 ->]].
      now rewrite (HyesD m0 Hv).
    - discriminate HnoD. intros v Hin.
      apply elem_of_map_to_list in Hin. congruence. }
  assert (Hm : d !! "metadata" = Some (VMap (Some m'))).
  { destruct (d !! "metadata") as [v|] eqn:Hv.
    - apply elem_of_map_to_list in Hv.
      destruct (kv2_range_entries _ _ _ _ _ _ _ E Hv) as [_ [m0 ->]].
      now rewrite (HyesM m0 Hv).
    - discriminate HnoM. intros v Hin.
      apply elem_of_map_to_list in Hin. congruence. }
  apply map_eq. intros i. unfold kv2_secret.
  destruct (decide (i = "data")) as [->|Hi];
    [now rewrite lookup_insert_eq|].
  rewrite lookup_insert_ne by congruence.
  destruct (decide (i = "metadata")) as [->|Hi'];
    [now rewrite lookup_insert_eq|].
  rewrite lookup_insert_ne by congruence. rewrite lookup_empty.
  destruct (d !! i) as [v|] eqn:Hv; [|reflexivity].
  apply elem_of_map_to_list in Hv.
  destruct (kv2_range_entries _ _ _ _ _ _ _ E Hv) as [[?|?] _]; congruence.
Qed.

Lemma kv2UserPass_kv2_secret (m m' : gmap string value)
  (usernameAttr passwordAttr : string) :
  kv2UserPass (kv2_secret m m') usernameAttr passwordAttr
  = (string_at m usernameAttr, string_at m passwordAttr).
Proof.
  unfold kv2UserPass, kv2UserPass_in.
  rewrite (kv2_range_order (map_to_list (kv2_secret m m'))
             [("data", VMap (Some m)); ("metadata", VMap (Some m'))]).
  - reflexivity.
  - apply NoDup_fst_map_to_list.
  - unfold kv2_secret. rewrite map_to_list_insert.
    + now rewrite map_to_list_insert, map_to_list_empty
        by apply lookup_empty.
    + rewrite lookup_insert_ne by discriminate. apply lookup_empty.
Qed.

(** X22.  [kv2UserPass] finds something only in a secret of exactly the
    KV-v2 format: the map has the fields "data" and "metadata" and no
    other, both hold non-nil maps, and the strings come from "data".
    For every secret of that format it returns the strings stored under
    the two attribute names in "data". *)
Theorem kv2UserPass_needs_kv2_format (d : data)
  (usernameAttr passwordAttr : string) :
  (kv2UserPass d usernameAttr passwordAttr <> ("", "") ->
   exists m m',
     d = kv2_secret m m' /\
     kv2UserPass d usernameAttr passwordAttr
     = (string_at m usernameAttr, string_at m passwordAttr)) /\
  (forall m m',
     d = kv2_secret m m' ->
     kv2UserPass d usernameAttr passwordAttr
     = (string_at m usernameAttr, string_at m passwordAttr)).
Proof.
  split.
  - intros Hne.
    destruct (kv2UserPass_shape d usernameAttr passwordAttr Hne)
      as (m & m' & Hd & Hk).
    exists m, m'. split; [exact Hd | exact Hk].
  - intros m m' ->. apply kv2UserPass_kv2_secret.
Qed.

Lemma string_at_kv2_secret (m m' : gmap string value) (attr : string) :
  string_at (kv2_secret m m') attr = "".
Proof.
  unfold string_at, kv2_secret.
  destruct (decide (attr = "data")) as [->|Hd];
    [now rewrite lookup_insert_eq|].
  rewrite lookup_insert_ne by congruence.
  destruct (decide (attr = "metadata")) as [->|Hm];
    [now rewrite lookup_insert_eq|].
  rewrite lookup_insert_ne by congruence. now rewrite lookup_empty.
Qed.

(** X23.  From a secret in the KV-v2 format, whatever the attribute names,
    [Extract] returns the two strings found in "data" when both are
    there and non-empty, and the pair of empty strings otherwise; the
    top level of such a secret never answers. *)
Theorem Extract_kv2_secret (m m' : gmap string value)
  (usernameAttr passwordAttr : string) :
  Extract (kv2_secret m m') usernameAttr passwordAttr
  = if negb (String.eqb (string_at m usernameAttr) "")
       && negb (String.eqb (string_at m passwordAttr) "")
    then (string_at m usernameAttr, string_at m passwordAttr)
    else ("", "").
Proof.
  unfold Extract. cbn [Extract_range]. unfold defaultUserPass.
  rewrite !string_at_kv2_secret. cbn.
  rewrite kv2UserPass_kv2_secret. reflexivity.
Qed.

(** X24.  When the map itself holds non-empty strings under both attribute
    names, [Extract] returns them, whatever else the map holds. *)
Theorem Extract_top_level_first (d : data)
  (usernameAttr passwordAttr username password : string) :
  d !! usernameAttr = Some (VString username) ->
  d !! passwordAttr = Some (VString password) ->
  username <> "" -> password <> "" ->
  Extract d usernameAttr passwordAttr = (username, password).
Proof.
  intros Hu Hp Hnu Hnp. unfold Extract. cbn [Extract_range].
  unfold defaultUserPass, string_at. rewrite Hu, Hp.
  apply String.eqb_neq in Hnu, Hnp. now rewrite Hnu, Hnp.
Qed.

(** X25.  What [Extract] returns it has found: a non-empty username comes
    with a password, and the two are the strings stored under the two
    attribute names either at the top level of the map or, in a secret of
    exactly the KV-v2 format, in its "data". *)
Theorem Extract_returns_what_is_stored (d : data)
  (usernameAttr passwordAttr username password : string) :
  Extract d usernameAttr passwordAttr = (username, password) ->
  username <> "" ->
  (d !! usernameAttr = Some (VString username) /\
   d !! passwordAttr = Some (VString password)) \/
  (exists m m',
     d = kv2_secret m m' /\
     m !! usernameAttr = Some (VString username) /\
     m !! passwordAttr = Some (VString password)).
Proof.
  unfold Extract. cbn [Extract_range]. unfold defaultUserPass.
  destruct (String.eqb_spec (string_at d usernameAttr) "") as [Eu|Eu];
    destruct (String.eqb_spec (string_at d passwordAttr) "") as [Ep|Ep];
    cbn [negb andb];
    try (intros [= <- <-] _; left; split; now apply string_at_found).
  all: destruct (kv2UserPass d usernameAttr passwordAttr) as [u p] eqn:Ek;
    destruct (String.eqb_spec u "") as [->|Hu];
    destruct (String.eqb_spec p "") as [->|Hp]; cbn [negb andb];
    intros [= <- <-] Hn; try (now elim Hn);
    destruct (kv2UserPass_shape d usernameAttr passwordAttr)
      as (m & m' & Hd & Hk); [rewrite Ek; congruence|];
    rewrite Ek in Hk; injection Hk as Hku Hkp;
    right; exists m, m'; split; [exact Hd|];
    split; apply string_at_found; congruence.
Qed.

End MoreExtractFacts.

(** * Properties of the user repository *)

Section UserFacts.
Import Iam.
Context {R : Repository}.

(** X26.  Whenever [DeleteUser] returns an error, the row count it returns is
    [db.NoRowsAffected], whichever way it was asked to delete and
    whatever the database answered. *)
Theorem DeleteUser_error_has_no_rows (withPublicId withName : string)
  (db db' : Db) (rows : Z) (err : error) :
  DeleteUser withPublicId withName db = ((rows, Some err), db') ->
  rows = NoRowsAffected.
Proof.
  unfold DeleteUser.
  destruct (String.eqb withPublicId ""); cbn [negb].
  - destruct (String.eqb withName ""); cbn [negb];
      [now intros [= <- _ _]|].
    destruct (LookupByName _ db) as [[[e|] u] db1].
    + destruct (is_ErrRecordNotFound e); [discriminate|].
      now intros [= <- _ _].
    + destruct (String.eqb (PublicId u) ""); [now intros [= <- _ _]|].
      destruct (Delete u db1) as [[n [e|]] db2];
        [now intros [= <- _ _] | discriminate].
  - destruct (Delete _ db) as [[n [e|]] db1];
      [now intros [= <- _ _] | discriminate].
Qed.

(** X27.  Deleting by name a user that the lookup does not find is not an
    error: [DeleteUser] returns [db.NoRowsAffected] and nil, and the
    lookup is all it has done to the database. *)
Theorem DeleteUser_unknown_name (withName : string) (db db1 : Db)
  (u : User Rest) :
  withName <> "" ->
  LookupByName (mkUser "" withName rest0) db
  = ((Some ErrRecordNotFound, u), db1) ->
  DeleteUser "" withName db = ((NoRowsAffected, None), db1).
Proof.
  intros Hn Hl. unfold DeleteUser. cbn.
  apply String.eqb_neq in Hn. rewrite Hn. cbn.
  unfold allocUser. cbn. now rewrite Hl.
Qed.

(** X28.  A public id takes precedence: when one is given, [LookupUser] and
    [DeleteUser] do what they do without a name. *)
Theorem public_id_takes_precedence (withPublicId withName : string)
  (db : Db) :
  withPublicId <> "" ->
  LookupUser withPublicId withName db = LookupUser withPublicId "" db /\
  DeleteUser withPublicId withName db = DeleteUser withPublicId "" db.
Proof.
  intros Hn. apply String.eqb_neq in Hn.
  unfold LookupUser, DeleteUser. now rewrite Hn.
Qed.

(** X29.  Deleting by name deletes the user the lookup found, by the record it
    returned: when its public id is unset nothing is deleted and an
    error is returned; otherwise the answer of [Delete] for that record
    decides, its row count on success and [db.NoRowsAffected] with the
    wrapped error on failure. *)
Theorem DeleteUser_by_name (withName : string) (db db1 : Db)
  (u : User Rest) :
  withName <> "" ->
  LookupByName (mkUser "" withName rest0) db = ((None, u), db1) ->
  DeleteUser "" withName db
  = if String.eqb (PublicId u) "" then
      ((NoRowsAffected,
        Some (E_New "unable to delete user with unset public id")), db1)
    else
      match Delete u db1 with
      | ((_, Some err), db2) =>
          ((NoRowsAffected,
            Some (E_Errorf "unable to delete user by name" err)), db2)
      | ((rowsDeleted, None), db2) => ((rowsDeleted, None), db2)
      end.
Proof.
  intros Hn Hl. unfold DeleteUser. cbn.
  apply String.eqb_neq in Hn. rewrite Hn. cbn.
  unfold allocUser. cbn. rewrite Hl.
  destruct (String.eqb (PublicId u) ""); [reflexivity|].
  destruct (Delete u db1) as [[n [e|]] db2]; reflexivity.
Qed.

End UserFacts.

Section UserRuns.
Import Iam.

Lemma DeleteUser_error_has_no_rows_witness :
  let table := [mkUser "" "ghost" tt] in
  DeleteUser (R := table_repository) "" "ghost" table
  = ((0%Z, Some (E_New "unable to delete user with unset public id")), table)
  /\ 0%Z = NoRowsAffected (Repository := table_repository).
Proof.
  intros table. split; [reflexivity|].
  apply (DeleteUser_error_has_no_rows (R := table_repository)
           "" "ghost" table table 0
           (E_New "unable to delete user with unset public id")).
  reflexivity.
Defined.

Lemma DeleteUser_unknown_name_witness :
  let table := [mkUser "u_1" "alice" tt] in
  DeleteUser (R := table_repository) "" "bob" table = ((0%Z, None), table).
Proof.
  intros table.
  apply (DeleteUser_unknown_name (R := table_repository) "bob" table table
           (mkUser "" "bob" tt)); [discriminate | reflexivity].
Defined.

Lemma public_id_takes_precedence_witness :
  let table := [mkUser "u_1" "alice" tt; mkUser "u_2" "bob" tt] in
  DeleteUser (R := table_repository) "u_1" "bob" table
  = DeleteUser (R := table_repository) "u_1" "" table.
Proof.
  intros table.
  apply (public_id_takes_precedence (R := table_repository)
           "u_1" "bob" table). discriminate.
Defined.

Lemma DeleteUser_by_name_witness :
  let table := [mkUser "u_1" "alice" tt; mkUser "u_2" "bob" tt] in
  DeleteUser (R := table_repository) "" "bob" table
  = ((1%Z, None), [mkUser "u_1" "alice" tt]).
Proof.
  intros table.
  rewrite (DeleteUser_by_name (R := table_repository) "bob" table table
             (mkUser "u_2" "bob" tt)); [reflexivity | discriminate
                                       | reflexivity].
Defined.

End UserRuns.

(** * More runs on explicit inputs *)

Section MoreRuns.
Import Scenario.

Lemma Name_is_unique_witness : TokenRevocation = TokenRevocation.
Proof.
  apply (Name_is_unique TokenRevocation TokenRevocation). reflexivity.
Defined.

Lemma process_without_wrapper_witness :
  let E := scripted_with false true true in
  let st := job_in E (mkWorld 0 []) false 0 0 in
  exists op,
    process (C := E) CredentialRevocation (healthy "a") st
    = ((Some (E_Wrap (E_Other "kms is down") op
                (Some "unable to get database wrapper")), healthy "a"),
       set_ext (mkWorld 1 []) st).
Proof.
  intros E st.
  apply (process_without_wrapper (C := E) CredentialRevocation
           (healthy "a") st (E_Other "kms is down") (mkWorld 1 [])).
  reflexivity.
Defined.

Lemma store_without_token_is_skipped_witness :
  let E := scripted_with true true false in
  let st := job_in E (mkWorld 0 []) false 0 0 in
  renewToken (C := E) (healthy "a") st
  = ((None, healthy "a"), set_ext (mkWorld 2 []) st) /\
  revokeToken (C := E) (healthy "a") st
  = ((None, healthy "a"), set_ext (mkWorld 2 []) st).
Proof.
  intros E st.
  apply (store_without_token_is_skipped (C := E) (healthy "a") st tt
           (mkWorld 1 []) (healthy "a") (mkWorld 2 []));
    reflexivity.
Defined.

Lemma renewToken_renews_witness :
  let s := healthy "a" in
  let st := job false 0 0 [s] in
  execs (snd (renewToken s st))
  = [Token_updateExpirationQuery (mkToken 1%Z (3600 * Second)%Z)] /\
  logs (snd (renewToken s st)) = [] /\
  fst (renewToken s st) = (None, s).
Proof.
  intros s st.
  apply (renewToken_renews (C := scripted) s st tt (mkWorld 1 [s]) s
           (mkWorld 2 [s]) (mkToken 1%Z 0%Z) 200%Z (mkWorld 3 [s])
           3600%Z (mkWorld 4 [s]) (3600 * Second)%Z);
    reflexivity.
Defined.

Lemma renewToken_other_failure_witness :
  let s := rejected "a" 500 in
  let st := job false 0 0 [s] in
  execs (snd (renewToken s st)) = [] /\
  fst (renewToken s st)
  = (Some (E_Wrap (E_Wrap (E_Response 500) "vault.(client).renewToken" None)
             "vault.(TokenRenewalJob).renewToken"
             (Some "unable to renew vault token")), s).
Proof.
  intros s st.
  rewrite (renewToken_other_failure (C := scripted) s st tt (mkWorld 1 [s])
             s (mkWorld 2 [s]) (mkToken 1%Z 0%Z) 500%Z (mkWorld 3 [s])
             (E_Wrap (E_Response 500) "vault.(client).renewToken" None)
             (mkWorld 4 [s]));
    try reflexivity.
  - split; reflexivity.
  - discriminate.
Defined.

Lemma revokeToken_other_failure_witness :
  let s := rejected "a" 500 in
  let st := job false 0 0 [s] in
  execs (snd (revokeToken s st)) = [] /\
  fst (revokeToken s st)
  = (Some (E_Wrap (E_Wrap (E_Response 500) "vault.(client).revokeToken" None)
             "vault.(TokenRevocationJob).revokeToken"
             (Some "unable to revoke vault token")), s).
Proof.
  intros s st.
  rewrite (revokeToken_other_failure (C := scripted) s st tt (mkWorld 1 [s])
             s (mkWorld 2 [s]) (mkToken 1%Z 0%Z) 500%Z (mkWorld 3 [s])
             (E_Wrap (E_Response 500) "vault.(client).revokeToken" None)
             (mkWorld 4 [s]));
    try reflexivity.
  - split; reflexivity.
  - discriminate.
Defined.

Lemma renewCred_renews_witness :
  let c := healthy "a" in
  let st := job false 0 0 [c] in
  execs (snd (renewCred c st))
  = [Credential_updateExpirationQuery
       (mkCredential 1%Z (3600 * Second)%Z)] /\
  fst (renewCred c st) = (None, c).
Proof.
  intros c st.
  apply (renewCred_renews (C := scripted) c st tt (mkWorld 1 [c]) c
           (mkWorld 2 [c]) 200%Z (mkWorld 3 [c]) 3600%Z (mkWorld 4 [c]));
    reflexivity.
Defined.

Lemma renewCred_other_failure_witness :
  let c := rejected "a" 403 in
  let st := job false 0 0 [c] in
  execs (snd (renewCred c st)) = [] /\
  fst (renewCred c st)
  = (Some (E_Wrap (E_Wrap (E_Response 403) "vault.(client).renewLease" None)
             "vault.(CredentialRenewalJob).renewCred"
             (Some "unable to renew credential")), c).
Proof.
  intros c st.
  rewrite (renewCred_other_failure (C := scripted) c st tt (mkWorld 1 [c])
             c (mkWorld 2 [c]) 403%Z (mkWorld 3 [c])
             (E_Wrap (E_Response 403) "vault.(client).renewLease" None)
             (mkWorld 4 [c]));
    try reflexivity.
  - split; reflexivity.
  - discriminate.
Defined.

Lemma revokeCred_any_failure_witness :
  let c := rejected "a" 403 in
  let st := job false 0 0 [c] in
  execs (snd (revokeCred c st)) = [] /\
  fst (revokeCred c st)
  = (Some (E_Wrap (E_Wrap (E_Response 403) "vault.(client).revokeLease" None)
             "vault.(CredentialRenewalJob).revokeCred"
             (Some "unable to revoke credential")), c).
Proof.
  intros c st.
  rewrite (revokeCred_any_failure (C := scripted) c st tt (mkWorld 1 [c])
             c (mkWorld 2 [c]) 403%Z (mkWorld 3 [c])
             (E_Wrap (E_Response 403) "vault.(client).revokeLease" None)
             (mkWorld 4 [c]));
    try reflexivity.
  split; reflexivity.
Defined.

Lemma revokeCred_revokes_witness :
  let c := healthy "a" in
  let st := job false 0 0 [c] in
  execs (snd (revokeCred c st))
  = [Credential_updateStatusQuery (mkCredential 1%Z 0%Z) RevokedCredential] /\
  fst (revokeCred c st) = (None, c).
Proof.
  intros c st.
  apply (revokeCred_revokes (C := scripted) c st tt (mkWorld 1 [c]) c
           (mkWorld 2 [c]) 200%Z (mkWorld 3 [c]) (mkWorld 4 [c]));
    reflexivity.
Defined.

Lemma Run_progress_witness :
  let st := job false 0 0 [healthy "a"; healthy "b"] in
  let s := Status (snd (Run TokenRenewal (canceled_from 6) st)) in
  Total s = 2%Z /\ (0 <= Completed s <= Total s)%Z /\
  (fst (Run TokenRenewal (canceled_from 6) st) = None <->
   Completed s = Total s).
Proof.
  intros st.
  apply (Run_progress (C := scripted) TokenRenewal (canceled_from 6) st
           [healthy "a"; healthy "b"] (tick (ext st)));
    reflexivity.
Defined.

Lemma Run_selection_failure_witness :
  let E := scripted_with true false true in
  let st := job_in E (mkWorld 0 [healthy "a"]) true 3 4 in
  Run (C := E) CredentialRenewal background st
  = (Some (E_Wrap (E_Other "reader is down")
             "vault.(CredentialRenewalJob).Run" None),
     job_in E (mkWorld 1 [healthy "a"]) false 3 4).
Proof.
  intros E st.
  apply (Run_selection_failure (C := E) CredentialRenewal background st
           (E_Other "reader is down") (mkWorld 1 [healthy "a"]));
    reflexivity.
Defined.

Lemma NextRunIn_in_range_witness :
  NextRunIn TokenRenewal (mkWorld 0 [mkItem "a" "current" 200 30])
  = ((30 * Second, None)%Z, mkWorld 1 [mkItem "a" "current" 200 30]) /\
  (0 <= 30 * Second)%Z.
Proof.
  apply (NextRunIn_in_range (C := scripted) TokenRenewal
           (mkWorld 0 [mkItem "a" "current" 200 30]) 30%Z []);
    [left; reflexivity | reflexivity | lia | vm_compute; discriminate].
Defined.

Lemma NextRunIn_wraps_witness :
  let w := mkWorld 0 [mkItem "a" "current" 200 9223372037] in
  NextRunIn CredentialRenewal w
  = ((9223372037 * Second - 2 ^ 64, None)%Z, tick w) /\
  (9223372037 * Second - 2 ^ 64 < 0)%Z.
Proof.
  intros w.
  apply (NextRunIn_wraps (C := scripted) CredentialRenewal w
           9223372037%Z []);
    [right; reflexivity | reflexivity
    | split; vm_compute; [discriminate | reflexivity]].
Defined.

Lemma NextRunIn_error_has_fallback_witness :
  let E := scripted_with true false true in
  NextRunIn (C := E) TokenRenewal (mkWorld 0 [])
  = ((defaultNextRunIn,
      Some (E_Wrap (E_Wrap (E_Other "reader is down") "vault.nextRenewal"
                      None)
              "vault.(TokenRenewalJob).NextRunIn" None)), mkWorld 1 []) /\
  defaultNextRunIn = defaultNextRunIn.
Proof.
  intros E. split; [reflexivity|].
  apply (NextRunIn_error_has_fallback (C := E) TokenRenewal (mkWorld 0 [])
           defaultNextRunIn
           (E_Wrap (E_Wrap (E_Other "reader is down") "vault.nextRenewal"
                      None)
              "vault.(TokenRenewalJob).NextRunIn" None)
           (mkWorld 1 [])).
  reflexivity.
Defined.

End MoreRuns.

Section MoreExtracts.
Import UserPassword.

Lemma kv2UserPass_any_order_witness :
  let m : gmap string value :=
    <["username" := VString "admin"]> (<["password" := VString "s3cr3t"]> ∅) in
  kv2UserPass_in [("data", VMap (Some m)); ("metadata", VMap (Some ∅))]
    "username" "password"
  = kv2UserPass (kv2_secret m ∅) "username" "password".
Proof.
  intros m.
  apply (kv2UserPass_any_order (kv2_secret m ∅)).
  vm_compute. apply perm_swap.
Defined.

Lemma kv2UserPass_needs_kv2_format_witness :
  let m : gmap string value :=
    <["username" := VString "admin"]> (<["password" := VString "s3cr3t"]> ∅) in
  exists m1 m2,
    kv2_secret m ∅ = kv2_secret m1 m2 /\
    kv2UserPass (kv2_secret m ∅) "username" "password"
    = (string_at m1 "username", string_at m1 "password").
Proof.
  intros m.
  apply (proj1 (kv2UserPass_needs_kv2_format (kv2_secret m ∅)
                  "username" "password")).
  vm_compute. discriminate.
Defined.

Lemma Extract_top_level_first_witness :
  let d : data :=
    <["username" := VString "admin"]>
      (<["password" := VString "s3cr3t"]> (<["ttl" := VOther]> ∅)) in
  Extract d "username" "password" = ("admin", "s3cr3t").
Proof.
  intros d.
  apply (Extract_top_level_first d "username" "password" "admin" "s3cr3t");
    [reflexivity | reflexivity | discriminate | discriminate].
Defined.

Lemma Extract_returns_what_is_stored_witness :
  let d : data :=
    <["username" := VString "admin"]> (<["password" := VString "s3cr3t"]> ∅) in
  (d !! "username" = Some (VString "admin") /\
   d !! "password" = Some (VString "s3cr3t")) \/
  (exists m m',
     d = kv2_secret m m' /\
     m !! "username" = Some (VString "admin") /\
     m !! "password" = Some (VString "s3cr3t")).
Proof.
  intros d.
  apply (Extract_returns_what_is_stored d "username" "password"
           "admin" "s3cr3t"); [reflexivity | discriminate].
Defined.

End MoreExtracts.
